(** * model_analyzer: records, constraint checking and the quick search

  A shallow embedding of

  - [model_analyzer/record/types/perf_latency_avg.py] (module [Latency]),
  - [model_analyzer/result/constraint_manager.py] (module
    [ConstraintManager]),
  - the part of the quick run-config generator that
    [tests/test_quick_run_config_generator.py] exercises (module
    [QuickSearch]).

  Python numbers are modelled as exact rationals ([Q]); numeric results are
  therefore compared with [==] ([Qeq]).  Python exceptions are modelled by
  the [result] type below.

  [Q] adds and divides exactly where Python's floats round.  An equation
  [==] on a returned number therefore says which formula the code
  evaluates; laws that hold only for exact sums (associativity,
  cancellation, regrouping or reordering of an accumulated sum) are not
  stated of the code. *)

From Stdlib Require Import ZArith QArith Lqa Lia.
From stdpp Require Import base option list gmap strings.

(** ** Python values and exceptions *)

Module Py.

(** The exceptions the embedded code can raise. *)
Inductive exn : Set :=
| IndexError
| ZeroDivisionError
| ConfigurationError
| DimensionError.

Inductive result (A : Type) : Type :=
| Ok (a : A)
| Raise (e : exn).
Arguments Ok {A} a.
Arguments Raise {A} e.

#[export] Instance result_ret : MRet result := @Ok.
#[export] Instance result_bind : MBind result := λ A B f r,
  match r with
  | Ok a => f a
  | Raise e => Raise e
  end.

Definition returns {A} (r : result A) : Prop := ∃ a, r = Ok a.

(** [x < y] on numbers, as a boolean. *)
Definition Qltb (x y : Q) : bool := negb (Qle_bool y x).

(** [l[i]] for a non-negative index [i]. *)
Definition getitem {A} (l : list A) (i : nat) : result A :=
  match l !! i with
  | Some a => Ok a
  | None => Raise IndexError
  end.

(** True division [x / y]: the exact quotient, where Python rounds it to a
    float. *)
Definition truediv (x y : Q) : result Q :=
  if Qeq_bool y 0 then Raise ZeroDivisionError else Ok (x / y)%Q.

(** Modelled from the spec: the base class [Record] ([record.py]), which is
    missing from the sources: a record is [{metricTag, value, timestamp}];
    [tag] is the class attribute read by [type(metric).tag], [value] is what
    [value()] returns (a Python float, idealised as an exact rational). *)
Record record : Type := mkRecord {
  tag : string;
  value : Q;
  timestamp : Q
}.

End Py.
Export Py.

(** ** [perf_latency_avg.py] *)

Module Latency.

(** [PerfLatencyAvg(value, timestamp)] *)
Definition PerfLatencyAvg (value timestamp : Q) : record :=
  {| tag := "perf_latency_avg"; value := value; timestamp := timestamp |}.

(** [self.__class__(value=v)]: same class, default [timestamp=0]. *)
Definition new_like (self : record) (v : Q) : record :=
  {| tag := tag self; value := v; timestamp := 0 |}.

Definition header (aggregation_tag : bool) : string := "Avg Latency (ms)".

Definition calculate_percentage_gain (self other : record) : result Q :=
  q ← truediv (value other - value self) (value self);
  Ok (q * 100)%Q.

Definition __eq__ (self other : record) : bool :=
  Qeq_bool (value self) (value other).

Definition __lt__ (self other : record) : bool :=
  Qltb (value other) (value self).

Definition __add__ (self other : record) : record :=
  new_like self (value self + value other).

Definition __sub__ (self other : record) : record :=
  new_like self (value other - value self).

(** The comparisons [functools.total_ordering] derives from [__lt__] and
    [__eq__]; [__ne__] is Python's default negation of [__eq__]. *)
Definition __ne__ (self other : record) : bool := negb (__eq__ self other).
Definition __le__ (self other : record) : bool :=
  __lt__ self other || __eq__ self other.
Definition __gt__ (self other : record) : bool :=
  negb (__lt__ self other) && __ne__ self other.
Definition __ge__ (self other : record) : bool := negb (__lt__ self other).

End Latency.

(** ** [constraint_manager.py] *)

Module ConstraintManager.

(** [constraints: List[Dict[str, Dict[str, int]]]]; an entry may be
    [None]. *)
Abbreviation constraint_dict := (gmap string (gmap string Q)).
Abbreviation constraint_list := (list (option constraint_dict)).

(** [run_config_measurement.data()]: per model, the list of its metric
    records. *)
Abbreviation measurement := (list (list record)).

(** [constraints[i] is not None and type(metric).tag in constraints[i]],
    then [constraints[i][type(metric).tag]]. *)
Definition constraint_for (constraints : constraint_list) (i : nat)
    (metric : record) : result (option (gmap string Q)) :=
  ci ← getitem constraints i;
  Ok (match ci with
      | Some d => d !! tag metric
      | None => None
      end).

(** Body of the inner loop of [satisfies_constraints]: [false] stands for
    [return False], [true] for falling through to the next metric. *)
Definition check_metric (constraints : constraint_list) (i : nat)
    (metric : record) : result bool :=
  c ← constraint_for constraints i metric;
  match c with
  | Some constraint =>
      if match constraint !! "min" with
         | Some mn => Qltb (value metric) mn
         | None => false
         end
      then Ok false
      else if match constraint !! "max" with
              | Some mx => Qltb mx (value metric)
              | None => false
              end
      then Ok false
      else Ok true
  | None => Ok true
  end.

Fixpoint check_metrics (constraints : constraint_list) (i : nat)
    (model_metrics : list record) : result bool :=
  match model_metrics with
  | [] => Ok true
  | metric :: rest =>
      ok ← check_metric constraints i metric;
      if ok : bool then check_metrics constraints i rest else Ok false
  end.

Fixpoint check_models (constraints : constraint_list) (i : nat)
    (data : measurement) : result bool :=
  match data with
  | [] => Ok true
  | model_metrics :: rest =>
      ok ← check_metrics constraints i model_metrics;
      if ok : bool then check_models constraints (S i) rest else Ok false
  end.

Definition satisfies_constraints (constraints : constraint_list)
    (run_config_measurement : measurement) : result bool :=
  match constraints with
  | [] => Ok true
  | _ => check_models constraints 0 run_config_measurement
  end.

(** Body of the inner loop of [constraint_failure_percentage], threading
    the accumulator [failure_percentage]. *)
Definition add_metric (constraints : constraint_list) (i : nat)
    (metric : record) (failure_percentage : Q) : result Q :=
  c ← constraint_for constraints i metric;
  match c with
  | Some constraint =>
      fp ← match constraint !! "min" with
           | Some mn =>
               if Qltb (value metric) mn
               then q ← truediv (mn - value metric) mn;
                    Ok (failure_percentage + q)%Q
               else Ok failure_percentage
           | None => Ok failure_percentage
           end;
      match constraint !! "max" with
      | Some mx =>
          if Qltb mx (value metric)
          then q ← truediv (value metric - mx) mx;
               Ok (fp + q)%Q
          else Ok fp
      | None => Ok fp
      end
  | None => Ok failure_percentage
  end.

Fixpoint add_metrics (constraints : constraint_list) (i : nat)
    (model_metrics : list record) (failure_percentage : Q) : result Q :=
  match model_metrics with
  | [] => Ok failure_percentage
  | metric :: rest =>
      fp ← add_metric constraints i metric failure_percentage;
      add_metrics constraints i rest fp
  end.

Fixpoint add_models (constraints : constraint_list) (i : nat)
    (data : measurement) (failure_percentage : Q) : result Q :=
  match data with
  | [] => Ok failure_percentage
  | model_metrics :: rest =>
      fp ← add_metrics constraints i model_metrics failure_percentage;
      add_models constraints (S i) rest fp
  end.

Definition constraint_failure_percentage (constraints : constraint_list)
    (run_config_measurement : measurement) : result Q :=
  failure_percentage ←
    match constraints with
    | [] => Ok 0%Q
    | _ => add_models constraints 0 run_config_measurement 0%Q
    end;
  Ok (failure_percentage * 100)%Q.

End ConstraintManager.

(** *** [ConstraintManager.get_constraints_for_all_models] *)

Module AllModels.

(** What the method reads of one element of [config.analysis_models]: the
    results of [model.model_name()] and [model.constraints()].  The method
    stores the constraints as they are, whatever their type [C]. *)
Record ConfigModelAnalysisSpec (C : Type) : Type :=
  mkConfigModelAnalysisSpec {
    model_name : string;
    constraints : C
  }.
Arguments mkConfigModelAnalysisSpec {C} model_name constraints.
Arguments model_name {C} _.
Arguments constraints {C} _.

(** What the method reads of the [ConfigCommandProfile] (whose class is
    missing from the sources): [config.analysis_models], and the entry
    ["constraints"] of [config.get_all_config()], if there is one. *)
Record ConfigCommandProfile (C : Type) : Type := mkConfigCommandProfile {
  analysis_models : list (ConfigModelAnalysisSpec C);
  get_all_config_constraints : option C
}.
Arguments mkConfigCommandProfile {C} analysis_models
  get_all_config_constraints.
Arguments analysis_models {C} _.
Arguments get_all_config_constraints {C} _.

(** The [for] loop: [constraints[model.model_name()] = model.constraints()]
    for each model, in order. *)
Definition add_model_constraints {C} (acc : gmap string C)
    (models : list (ConfigModelAnalysisSpec C)) : gmap string C :=
  foldl (λ acc model, <[model_name model := constraints model]> acc)
        acc models.

Definition get_constraints_for_all_models {C}
    (config : ConfigCommandProfile C) : gmap string C :=
  let constraints := add_model_constraints ∅ (analysis_models config) in
  match get_all_config_constraints config with
  | Some c => <["default" := c]> constraints
  | None => constraints
  end.

End AllModels.

(** ** The constraint evaluator as the specification words it

    These definitions follow the wording of the contract
    ([satisfies] / [infeasibilityScore]); the theorems below compare them
    with the code of [ConstraintManager]. *)

Module ConstraintSpec.

Import ConstraintManager.

(** The constraint declared for [metric] at entity position [i], if any. *)
Definition declared (constraints : constraint_list) (i : nat)
    (metric : record) : option (gmap string Q) :=
  d ← mjoin (constraints !! i); d !! tag metric.

(** [value] lies within [[min, max]], either bound optional. *)
Definition within (constraint : gmap string Q) (v : Q) : Prop :=
  (∀ mn, constraint !! "min" = Some mn → (mn <= v)%Q) ∧
  (∀ mx, constraint !! "max" = Some mx → (v <= mx)%Q).

(** Every constrained metric of every entity lies within its bounds. *)
Definition all_within (constraints : constraint_list)
    (data : measurement) : Prop :=
  ∀ i model_metrics metric constraint,
    data !! i = Some model_metrics →
    metric ∈ model_metrics →
    declared constraints i metric = Some constraint →
    within constraint (value metric).

(** A violated bound: which bound, its declared value, the measured value. *)
Inductive bound : Set := MinBound | MaxBound.

Record violation : Type := mkViolation {
  kind : bound;
  limit : Q;
  measured : Q
}.

Definition violations_of (constraint : gmap string Q) (v : Q)
    : list violation :=
  match constraint !! "min" with
  | Some mn => if Qltb v mn then [mkViolation MinBound mn v] else []
  | None => []
  end ++
  match constraint !! "max" with
  | Some mx => if Qltb mx v then [mkViolation MaxBound mx v] else []
  | None => []
  end.

Definition metric_violations (constraints : constraint_list) (i : nat)
    (metric : record) : list violation :=
  match declared constraints i metric with
  | Some constraint => violations_of constraint (value metric)
  | None => []
  end.

Fixpoint violated_from (constraints : constraint_list) (i : nat)
    (data : measurement) : list violation :=
  match data with
  | [] => []
  | model_metrics :: rest =>
      (model_metrics ≫= metric_violations constraints i)
        ++ violated_from constraints (S i) rest
  end.

(** Every violated bound of every constrained metric of every entity. *)
Definition violated_bounds (constraints : constraint_list)
    (data : measurement) : list violation :=
  violated_from constraints 0 data.

(** [(min − value)/min] or [(value − max)/max]. *)
Definition relative_overage (x : violation) : Q :=
  match kind x with
  | MinBound => (limit x - measured x) / limit x
  | MaxBound => (measured x - limit x) / limit x
  end.

Definition Qsum (l : list Q) : Q := foldr Qplus 0%Q l.

Definition infeasibilityScore (constraints : constraint_list)
    (data : measurement) : Q :=
  100 * Qsum (relative_overage <$> violated_bounds constraints data).

(** The constraints list has an entry for every entity of the measurement
    (or is empty, in which case nothing is constrained). *)
Definition covers (constraints : constraint_list)
    (data : measurement) : Prop :=
  constraints = [] ∨ length data ≤ length constraints.

(** [c'] declares a wider interval than [c]: a smaller or absent [min] and a
    larger or absent [max]. *)
Definition wider (c c' : gmap string Q) : Prop :=
  (∀ mn', c' !! "min" = Some mn' →
     ∃ mn, c !! "min" = Some mn ∧ (mn' <= mn)%Q) ∧
  (∀ mx', c' !! "max" = Some mx' →
     ∃ mx, c !! "max" = Some mx ∧ (mx <= mx')%Q).

(** The relative overage of a violation is defined when its declared bound
    is not zero. *)
Definition nonzero_limit (x : violation) : Prop := ¬ (limit x == 0)%Q.

Definition positive_limit (x : violation) : Prop := (0 < limit x)%Q.

(** The measured value really is on the wrong side of the bound. *)
Definition violated (x : violation) : Prop :=
  match kind x with
  | MinBound => (measured x < limit x)%Q
  | MaxBound => (limit x < measured x)%Q
  end.

End ConstraintSpec.

(** ** How a run of the two checks ends *)

Module ConstraintRuns.

Import ConstraintManager.

(** Every entity that has at least one metric has an entry in the
    constraints list: the positions at which the loops evaluate
    [constraints[i]]. *)
Definition populated_covered (constraints : constraint_list)
    (data : measurement) : Prop :=
  ∀ i model_metrics,
    data !! i = Some model_metrics → model_metrics ≠ [] →
    i < length constraints.

(** Two runs end alike: both return a number, or both raise the same
    exception. *)
Definition same_ending (r1 r2 : result Q) : Prop :=
  match r1, r2 with
  | Ok _, Ok _ => True
  | Raise e1, Raise e2 => e1 = e2
  | _, _ => False
  end.

End ConstraintRuns.

(** ** The quick run-config generator

    [quick_run_config_generator.py], [search_dimension.py],
    [search_dimensions.py] and [coordinate.py] are not part of the sources at
    hand; only [tests/test_quick_run_config_generator.py] is.  The generator
    is therefore modelled from the specification, with the names the test
    uses, and the expectations of the test are transcribed next to it so
    that the model can be run against them. *)

Module QuickSearch.

Local Open Scope Z_scope.

(** Modelled from the spec: the growth law of a dimension, with the names
    of the constants of the missing [SearchDimension] that the test uses. *)
Inductive DimensionType : Set :=
| DIMENSION_TYPE_LINEAR
| DIMENSION_TYPE_EXPONENTIAL.

(** Modelled from the spec: [SearchDimension] (the spec's Dimension,
    [{name, law, minBound}]), whose class is missing from the sources. *)
Record SearchDimension : Type := mkSearchDimension {
  get_name : string;
  get_type : DimensionType;
  get_min_idx : Z
}.

(** Modelled from the spec: value resolution of one coordinate slot, missing
    from the sources.  Exponential is [2^slot], Linear is the slot itself up
    to the zero- or one-based [offset] that the spec leaves to the
    implementation; the slot is bounded below by the dimension's minimum. *)
Definition resolve_with (offset : Z) (d : SearchDimension) (idx : Z) : Z :=
  let idx := Z.max idx (get_min_idx d) in
  match get_type d with
  | DIMENSION_TYPE_LINEAR => idx + offset
  | DIMENSION_TYPE_EXPONENTIAL => 2 ^ idx
  end.

(** Modelled from the spec: the offset convention of the missing
    [SearchDimension.get_value_at_idx].  The tests fix it: they resolve the
    linear slots 7, 2 and 5 to the instance counts 8, 3 and 6. *)
Definition linear_offset : Z := 1.

(** Modelled from the spec: [SearchDimension.get_value_at_idx], missing
    from the sources. *)
Definition get_value_at_idx (d : SearchDimension) (idx : Z) : Z :=
  resolve_with linear_offset d idx.

(** Modelled from the spec: [SearchDimensions] (the spec's DimensionSet),
    missing from the sources: the dimensions in slot order, each with the
    index of the entity it belongs to. *)
Abbreviation SearchDimensions := (list (nat * SearchDimension)).

(** Modelled from the spec: [addDimensions(entityIndex, orderedDimensions)]
    appends the dimensions of an entity to the slot order. *)
Definition add_dimensions (key : nat) (dims : list SearchDimension)
    (sd : SearchDimensions) : SearchDimensions :=
  sd ++ ((key ,.) <$> dims).

(** Modelled from the spec: a [Coordinate] is an integer vector, one slot
    per dimension. *)
Abbreviation Coordinate := (list Z).

(** Modelled from the spec: [valuesFor(coordinate)], missing from the
    sources: entity index ↦ dimension name ↦ value.  Slots are resolved in
    order; a slot without a dimension is a [DimensionError].  (The fixture of
    the test registers three dimensions and resolves the two-slot coordinate
    [[5,7]] against them, so a shorter coordinate is accepted.) *)
Fixpoint values_from (sd : SearchDimensions) (coordinate : Coordinate)
    (vals : gmap nat (gmap string Z)) {struct coordinate}
    : result (gmap nat (gmap string Z)) :=
  match coordinate with
  | [] => Ok vals
  | v :: coordinate' =>
      match sd with
      | [] => Raise DimensionError
      | (key, dim) :: sd' =>
          values_from sd' coordinate'
            (<[key := <[get_name dim := get_value_at_idx dim v]>
                        (vals !!! key)]> vals)
      end
  end.

(** Modelled from the spec: [SearchDimensions.get_values_for_coordinate],
    missing from the sources. *)
Definition get_values_for_coordinate (sd : SearchDimensions)
    (coordinate : Coordinate) : result (gmap nat (gmap string Z)) :=
  values_from sd coordinate ∅.

(** Modelled from the spec: GlobalBounds, the optional overrides read from
    the configuration ([--run-config-search-max-concurrency] and the like),
    whose class is missing from the sources. *)
Record GlobalBounds : Type := mkGlobalBounds {
  run_config_search_max_model_batch_size : option Z;
  run_config_search_min_model_batch_size : option Z;
  run_config_search_max_instance_count : option Z;
  run_config_search_min_instance_count : option Z;
  run_config_search_max_concurrency : option Z;
  run_config_search_min_concurrency : option Z
}.

(** No option passed on the command line. *)
Definition no_bounds : GlobalBounds :=
  mkGlobalBounds None None None None None None.

(** Modelled from the spec: the fixed concurrency multiplier (default 2). *)
Definition concurrency_multiplier : Z := 2.

(** Modelled from the spec: the clamp policy of GlobalBounds, missing from
    the sources: [max] clamps downward, [min] clamps upward, and [min] takes
    precedence. *)
Definition clamp (lo hi : option Z) (v : Z) : Z :=
  let v := match hi with Some h => Z.min v h | None => v end in
  match lo with Some l => Z.max v l | None => v end.

(** Modelled from the spec: the value resolved for dimension [name] of
    entity [key]; a missing value is a [DimensionError]. *)
Definition dimension_value (vals : gmap nat (gmap string Z)) (key : nat)
    (name : string) : result Z :=
  match vals !! key ≫= (.!! name) with
  | Some v => Ok v
  | None => Raise DimensionError
  end.

(** Modelled from the spec: the batch size of an entity, its resolved
    [max_batch_size] clamped by the batch-size bounds. *)
Definition calculate_model_batch_size (bounds : GlobalBounds)
    (vals : gmap nat (gmap string Z)) (key : nat) : result Z :=
  v ← dimension_value vals key "max_batch_size";
  Ok (clamp (run_config_search_min_model_batch_size bounds)
            (run_config_search_max_model_batch_size bounds) v).

(** Modelled from the spec: the instance count of an entity, its resolved
    [instance_count] clamped by the instance-count bounds. *)
Definition calculate_instance_count (bounds : GlobalBounds)
    (vals : gmap nat (gmap string Z)) (key : nat) : result Z :=
  v ← dimension_value vals key "instance_count";
  Ok (clamp (run_config_search_min_instance_count bounds)
            (run_config_search_max_instance_count bounds) v).

(** Modelled from the spec: the computed concurrency of one entity, missing
    from the sources: clamped batch size × clamped instance count ×
    multiplier. *)
Definition computed_concurrency (bounds : GlobalBounds)
    (vals : gmap nat (gmap string Z)) (key : nat) : result Z :=
  bs ← calculate_model_batch_size bounds vals key;
  ic ← calculate_instance_count bounds vals key;
  Ok (bs * ic * concurrency_multiplier).

(** Modelled from the spec: the concurrency of a plain entity, the computed
    concurrency clamped by the concurrency bounds. *)
Definition calculate_concurrency (bounds : GlobalBounds)
    (vals : gmap nat (gmap string Z)) (key : nat) : result Z :=
  c ← computed_concurrency bounds vals key;
  Ok (clamp (run_config_search_min_concurrency bounds)
            (run_config_search_max_concurrency bounds) c).

(** Modelled from the spec: the configured concurrency override of
    GlobalBounds, if any; [max] is looked at first, as in the assertions of
    [_get_next_run_config_ensemble]. *)
Definition concurrency_override (bounds : GlobalBounds) : option Z :=
  match run_config_search_max_concurrency bounds with
  | Some o => Some o
  | None => run_config_search_min_concurrency bounds
  end.

(** Modelled from the spec: the minimum of the sub-entities' concurrencies;
    a composite without stages has none. *)
Definition minimum (l : list Z) : result Z :=
  match l with
  | [] => Raise ConfigurationError
  | c :: l' => Ok (foldl Z.min c l')
  end.

(** Modelled from the spec: composite-entity concurrency reconciliation,
    missing from the sources: the minimum of the sub-entities' computed
    concurrencies unless an override is configured, in which case the
    override is used verbatim. *)
Definition calculate_ensemble_concurrency (bounds : GlobalBounds)
    (sub_concurrencies : list Z) : result Z :=
  lowest ← minimum sub_concurrencies;
  Ok (default lowest (concurrency_override bounds)).

(** Modelled from the spec: the search-determined fields of a
    ConcreteConfiguration, with the names [ModelConfig.to_dict()] gives them
    in the test. *)
Record ModelConfig : Type := mkModelConfig {
  config_name : string;
  maxBatchSize : Z;
  instanceGroup_count : Z
}.

(** Modelled from the spec: the per-entity result of a step: the entity's
    configuration (none for a composite, whose own configuration is its
    baseline), its sub-entity configurations and its benchmarking
    parameters. *)
Record ModelRunConfig : Type := mkModelRunConfig {
  model_name : string;
  model_config : option ModelConfig;
  ensemble_subconfigs : list ModelConfig;
  perf_config : gmap string Z
}.

(** Modelled from the spec: an entity of the search: a model, or a composite
    (ensemble) with its ordered stages. *)
Inductive Entity : Type :=
| Model (name : string)
| Ensemble (name : string) (steps : list string).

(** Modelled from the spec: the configuration built for the entity at slot
    group [key]. *)
Definition make_model_config (bounds : GlobalBounds)
    (vals : gmap nat (gmap string Z)) (key : nat) (name : string)
    : result ModelConfig :=
  bs ← calculate_model_batch_size bounds vals key;
  ic ← calculate_instance_count bounds vals key;
  Ok (mkModelConfig name bs ic).

(** Modelled from the spec: the benchmarking parameters: the concurrency
    and the fixed batch size 1. *)
Definition make_perf_config (concurrency : Z) : gmap string Z :=
  {[ "concurrency-range" := concurrency; "batch-size" := 1 ]}.

(** Modelled from the spec: the sub-entity configurations of a composite,
    each with its computed concurrency; the sub-entities walk the dimension
    groups [key], [key+1], ... *)
Fixpoint get_next_ensemble_subconfigs (bounds : GlobalBounds)
    (vals : gmap nat (gmap string Z)) (key : nat) (steps : list string)
    : result (list (ModelConfig * Z)) :=
  match steps with
  | [] => Ok []
  | name :: steps' =>
      mc ← make_model_config bounds vals key name;
      c ← computed_concurrency bounds vals key;
      rest ← get_next_ensemble_subconfigs bounds vals (S key) steps';
      Ok ((mc, c) :: rest)
  end.

(** Modelled from the spec: the result of a step for a composite entity. *)
Definition get_next_ensemble_model_run_config (bounds : GlobalBounds)
    (vals : gmap nat (gmap string Z)) (key : nat) (name : string)
    (steps : list string) : result ModelRunConfig :=
  subs ← get_next_ensemble_subconfigs bounds vals key steps;
  c ← calculate_ensemble_concurrency bounds (subs.*2);
  Ok (mkModelRunConfig name None (subs.*1) (make_perf_config c)).

(** Modelled from the spec: the result of a step for a plain entity. *)
Definition get_next_model_run_config (bounds : GlobalBounds)
    (vals : gmap nat (gmap string Z)) (key : nat) (name : string)
    : result ModelRunConfig :=
  mc ← make_model_config bounds vals key name;
  c ← calculate_concurrency bounds vals key;
  Ok (mkModelRunConfig name (Some mc) [] (make_perf_config c)).

(** Modelled from the spec: one result per entity, in order. *)
Fixpoint model_run_configs (bounds : GlobalBounds)
    (vals : gmap nat (gmap string Z)) (key : nat) (models : list Entity)
    : result (list ModelRunConfig) :=
  match models with
  | [] => Ok []
  | Model name :: models' =>
      rc ← get_next_model_run_config bounds vals key name;
      rest ← model_run_configs bounds vals (S key) models';
      Ok (rc :: rest)
  | Ensemble name steps :: models' =>
      rc ← get_next_ensemble_model_run_config bounds vals key name steps;
      rest ← model_run_configs bounds vals (key + length steps) models';
      Ok (rc :: rest)
  end.

(** Modelled from the spec: the state of the missing
    [QuickRunConfigGenerator] that a step reads. *)
Record QuickRunConfigGenerator : Type := mkQuickRunConfigGenerator {
  dimensions : SearchDimensions;
  config : GlobalBounds;
  models : list Entity;
  _coordinate_to_measure : Coordinate
}.

(** Modelled from the spec: the stepping phase of the missing
    [QuickRunConfigGenerator._get_next_run_config]: resolve the cursor, then
    build one result per entity. *)
Definition _get_next_run_config (qrcg : QuickRunConfigGenerator)
    : result (list ModelRunConfig) :=
  vals ← get_values_for_coordinate (dimensions qrcg)
                                   (_coordinate_to_measure qrcg);
  model_run_configs (config qrcg) vals 0 (models qrcg).

(** [m] is the minimum of the non-empty list [l]. *)
Definition is_minimum (m : Z) (l : list Z) : Prop :=
  m ∈ l ∧ ∀ c, c ∈ l → (m ≤ c)%Z.

(** Modelled from the spec: the starting coordinate of the missing
    [QuickRunConfigGenerator._get_starting_coordinate]: each slot at its
    dimension's minimum. *)
Definition _get_starting_coordinate (sd : SearchDimensions) : Coordinate :=
  (λ kd, get_min_idx kd.2) <$> sd.

(** *** Fixtures and expectations of [test_quick_run_config_generator.py] *)

Module Fixture.

Definition max_batch_size_dim : SearchDimension :=
  mkSearchDimension "max_batch_size" DIMENSION_TYPE_EXPONENTIAL 0.
Definition instance_count_dim : SearchDimension :=
  mkSearchDimension "instance_count" DIMENSION_TYPE_LINEAR 0.
Definition concurrency_dim : SearchDimension :=
  mkSearchDimension "concurrency" DIMENSION_TYPE_EXPONENTIAL 0.

(** [setUp]: [self._dims] and [self._qrcg]. *)
Definition setUp_dims : SearchDimensions :=
  add_dimensions 0 [max_batch_size_dim; instance_count_dim; concurrency_dim]
    [].

(** [test_get_next_run_config]: coordinate [[5,7]]. *)
Definition qrcg_5_7 : QuickRunConfigGenerator :=
  mkQuickRunConfigGenerator setUp_dims no_bounds [Model "fake_model_name"]
    [5; 7]%Z.

(** [expected_model_config] ([maxBatchSize], [instanceGroup] count) and the
    asserted [perf_config] of [test_get_next_run_config]. *)
Definition expected_5_7 : list ModelRunConfig :=
  [mkModelRunConfig "fake_model_name"
     (Some (mkModelConfig "fake_model_name" 32 8)) []
     {[ "concurrency-range" := 512%Z; "batch-size" := 1%Z ]}].

(** [_get_next_run_config_ensemble]: the dimensions of the two submodels,
    the options [--run-config-search-max-concurrency] and
    [--run-config-search-min-concurrency] (0 stands for "not passed"), the
    coordinate [[1,2,4,5]]. *)
Definition ensemble_dims : SearchDimensions :=
  add_dimensions 1 [max_batch_size_dim; instance_count_dim]
    (add_dimensions 0 [max_batch_size_dim; instance_count_dim] []).

Definition option_of_arg (n : Z) : option Z :=
  if (n =? 0)%Z then None else Some n.

Definition ensemble_config (max_concurrency min_concurrency : Z)
    : GlobalBounds :=
  mkGlobalBounds None None None None
    (option_of_arg max_concurrency) (option_of_arg min_concurrency).

Definition qrcg_ensemble (max_concurrency min_concurrency : Z)
    : QuickRunConfigGenerator :=
  mkQuickRunConfigGenerator ensemble_dims
    (ensemble_config max_concurrency min_concurrency)
    [Ensemble "my-model" ["fake_model_A"; "fake_model_B"]]
    [1; 2; 4; 5]%Z.

(** The asserted ['concurrency-range'] of [_get_next_run_config_ensemble]. *)
Definition expected_ensemble_concurrency
    (max_concurrency min_concurrency : Z) : Z :=
  if negb (max_concurrency =? 0)%Z then max_concurrency
  else if negb (min_concurrency =? 0)%Z then min_concurrency
  else 12.

(** [expected_model_config0] and [expected_model_config1]. *)
Definition expected_ensemble_subconfigs : list ModelConfig :=
  [mkModelConfig "fake_model_A" 2 3; mkModelConfig "fake_model_B" 16 6].

(** The values the docstring of [_get_next_run_config_ensemble] lists for
    the coordinate [[1,2,4,5]], and the submodel concurrencies 12 and 192. *)
Definition ensemble_vals : gmap nat (gmap string Z) :=
  {[ 0%nat := {[ "max_batch_size" := 2; "instance_count" := 3 ]};
     1%nat := {[ "max_batch_size" := 16; "instance_count" := 6 ]} ]}.

Definition ensemble_subs : list (ModelConfig * Z) :=
  [(mkModelConfig "fake_model_A" 2 3, 12);
   (mkModelConfig "fake_model_B" 16 6, 192)].

(** The two dimensions that the coordinate [[5,7]] indexes. *)
Definition batch_and_instances : SearchDimensions :=
  add_dimensions 0 [max_batch_size_dim; instance_count_dim] [].

(** [test_get_starting_coordinate]: the dimensions [x], [y], [z] with the
    minimums 2, 1, 3. *)
Definition starting_dims : SearchDimensions :=
  add_dimensions 0
    [mkSearchDimension "x" DIMENSION_TYPE_EXPONENTIAL 2;
     mkSearchDimension "y" DIMENSION_TYPE_LINEAR 1;
     mkSearchDimension "z" DIMENSION_TYPE_EXPONENTIAL 3] [].

(** [test_get_next_run_config_max_batch_size] and its three siblings: the
    fixture of [setUp] with one of the four options
    [--run-config-search-{max,min}-model-batch-size] and
    [--run-config-search-{max,min}-instance-count], at the coordinate
    [[5,7]]. *)
Definition qrcg_clamped (bounds : GlobalBounds) : QuickRunConfigGenerator :=
  mkQuickRunConfigGenerator setUp_dims bounds [Model "fake_model_name"]
    [5; 7]%Z.

(** What each of the four tests asserts: [maxBatchSize], the [instanceGroup]
    count, ['concurrency-range'] and ['batch-size']. *)
Definition expected_clamped (batch_size count concurrency : Z)
    : list ModelRunConfig :=
  [mkModelRunConfig "fake_model_name"
     (Some (mkModelConfig "fake_model_name" batch_size count)) []
     {[ "concurrency-range" := concurrency; "batch-size" := 1%Z ]}].

(** [test_get_next_run_config_multi_model]: two plain models at the
    coordinate [[1,2,4,5]]. *)
Definition qrcg_multi_model : QuickRunConfigGenerator :=
  mkQuickRunConfigGenerator ensemble_dims no_bounds
    [Model "fake_model_name1"; Model "fake_model_name2"] [1; 2; 4; 5]%Z.

Definition expected_multi_model : list ModelRunConfig :=
  [mkModelRunConfig "fake_model_name1"
     (Some (mkModelConfig "fake_model_name1" 2 3)) []
     {[ "concurrency-range" := 12%Z; "batch-size" := 1%Z ]};
   mkModelRunConfig "fake_model_name2"
     (Some (mkModelConfig "fake_model_name2" 16 6)) []
     {[ "concurrency-range" := 192%Z; "batch-size" := 1%Z ]}].

End Fixture.

End QuickSearch.

(** ** Sample inputs

    Constraint lists and measurements on which the properties below are
    exercised. *)

Module Samples.

Import Latency ConstraintManager.

(** [[{"perf_latency_avg": {"max": mx}}]] *)
Definition latency_max (mx : Q) : constraint_list :=
  [Some {[ "perf_latency_avg" := {[ "max" := mx ]} ]}].

(** One model with one latency metric of value [v]. *)
Definition latency_measured (v : Q) : measurement := [[PerfLatencyAvg v 0]].

(** Two models: the bound 5 on the first, the bound −5 on the second. *)
Definition two_latency_max : constraint_list :=
  latency_max 5 ++ latency_max (-5).

Definition two_latency_measured : measurement :=
  latency_measured 10 ++ latency_measured 0.

(** The same metrics in another order: two latencies on one model. *)
Definition latency_pair (v1 v2 : Q) : measurement :=
  [[PerfLatencyAvg v1 0; PerfLatencyAvg v2 0]].

(** [[{"perf_latency_avg": {"min": mn, "max": mx}}]] *)
Definition latency_min_max (mn mx : Q) : constraint_list :=
  [Some {[ "perf_latency_avg" := {[ "min" := mn; "max" := mx ]} ]}].

(** Two models of which the first passes its bound and the second does
    not. *)
Definition pass_then_fail_max : constraint_list :=
  latency_max 200 ++ latency_max 100.

Definition pass_then_fail_measured : measurement :=
  latency_measured 150 ++ latency_measured 150.

(** A configuration with two models and global constraints. *)
Definition two_models : AllModels.ConfigCommandProfile nat :=
  AllModels.mkConfigCommandProfile
    [AllModels.mkConfigModelAnalysisSpec "resnet" 1;
     AllModels.mkConfigModelAnalysisSpec "bert" 2]
    (Some 0).

End Samples.

(** * Properties *)

(** ** Numbers and exceptions *)

Module PyFacts.

Lemma Qltb_lt (x y : Q) : Qltb x y = true ↔ (x < y)%Q.
Proof.
  unfold Qltb. rewrite negb_true_iff, <- not_true_iff_false, Qle_bool_iff.
  split; [apply Qnot_le_lt | apply Qlt_not_le].
Qed.

Lemma Qltb_ge (x y : Q) : Qltb x y = false ↔ (y <= x)%Q.
Proof. unfold Qltb. by rewrite negb_false_iff, Qle_bool_iff. Qed.

Lemma truediv_ok (x y : Q) : ¬ (y == 0)%Q → truediv x y = Ok (x / y)%Q.
Proof.
  intros Hy. unfold truediv.
  destruct (Qeq_bool y 0) eqn:E; [|done].
  by apply Qeq_bool_iff in E.
Qed.

Lemma truediv_zero (x y : Q) :
  (y == 0)%Q → truediv x y = Raise ZeroDivisionError.
Proof. intros Hy. unfold truediv. apply Qeq_bool_iff in Hy. by rewrite Hy. Qed.

Lemma getitem_lt {A} (l : list A) (i : nat) :
  i < length l → ∃ a, l !! i = Some a ∧ getitem l i = Ok a.
Proof.
  intros [a Ha]%lookup_lt_is_Some. exists a. unfold getitem. by rewrite Ha.
Qed.

End PyFacts.

(** ** [PerfLatencyAvg] *)

Module LatencyFacts.

Import Latency PyFacts.

Local Open Scope Q_scope.

(** C4, as stated, fails: with baseline 10 and candidate 5 the claimed gain
    is [((10 − 5)/10) × 100 = 50], but the method returns −50 when the
    baseline is the receiver and 100 when the candidate is. *)
Lemma percentage_gain_not_relative_to_baseline :
  let b := PerfLatencyAvg 10 0 in
  let c := PerfLatencyAvg 5 0 in
  let claimed := (value b - value c) / value b * 100 in
  ¬ value b == 0 ∧
  ∃ x y,
    calculate_percentage_gain b c = Ok x ∧
    calculate_percentage_gain c b = Ok y ∧
    ¬ x == claimed ∧ ¬ y == claimed ∧ x < 0.
Proof.
  cbv zeta. split; [done|].
  exists ((5 - 10) / 10 * 100), ((10 - 5) / 5 * 100).
  repeat split; done.
Qed.

(** C4, amended: with the candidate as receiver, the method swaps the
    operands of the normal-polarity form, so the difference is relative to
    the candidate's own value: [c.calculate_percentage_gain(b)] is
    [((b − c)/c) × 100] whenever [c.value() ≠ 0], and for a positive
    candidate latency it is positive exactly when the candidate's latency is
    lower than the baseline's. *)
Theorem percentage_gain_reversed (vc tc vb tb : Q) :
  ¬ vc == 0 →
  ∃ r,
    calculate_percentage_gain (PerfLatencyAvg vc tc) (PerfLatencyAvg vb tb)
      = Ok r ∧
    r == (vb - vc) / vc * 100 ∧
    (0 < vc → (0 < r ↔ vc < vb)).
Proof.
  intros Hc. exists ((vb - vc) / vc * 100).
  split; [|split; [reflexivity|]].
  - unfold calculate_percentage_gain. simpl. by rewrite truediv_ok.
  - intros Hpos.
    assert (Hd : (vb - vc) / vc * vc == vb - vc) by (field; lra).
    generalize dependent ((vb - vc) / vc). intros d Hd.
    split; intros H; nra.
Qed.

Lemma percentage_gain_reversed_witness :
  ¬ 5 == 0 ∧
  ∃ r,
    calculate_percentage_gain (PerfLatencyAvg 5 0) (PerfLatencyAvg 10 0)
      = Ok r ∧
    r == (10 - 5) / 5 * 100 ∧
    (0 < 5 → (0 < r ↔ 5 < 10)).
Proof.
  split; [done|]. apply (percentage_gain_reversed 5 0 10 0). done.
Defined.

(** A zero receiver value raises. *)
Lemma percentage_gain_zero (self other : record) :
  value self == 0 →
  calculate_percentage_gain self other = Raise ZeroDivisionError.
Proof.
  intros H. unfold calculate_percentage_gain. by rewrite truediv_zero.
Qed.

(** C9, as stated, fails: with [a = 3] and [b = 2], [(a + b) − b] has value
    [2 − 5 = −3] and does not compare equal to [a]. *)
Lemma sub_does_not_undo_add :
  let a := PerfLatencyAvg 3 0 in
  let b := PerfLatencyAvg 2 0 in
  __eq__ (__sub__ (__add__ a b) b) a = false ∧
  value (__sub__ (__add__ a b) b) == -3.
Proof. split; reflexivity. Qed.

(** C9, amended: [a + b] is a new record of the same tag whose value is
    [a.value() + b.value()]; subtraction is not the inverse of this combine
    but the operand-reversed difference: [x − y] is a new record of the same
    tag whose value is [y.value() − x.value()], so [(a + b) − b] has the
    value [b.value() − (a.value() + b.value())]. *)
Theorem add_sub_reversed (va ta vb tb : Q) :
  let a := PerfLatencyAvg va ta in
  let b := PerfLatencyAvg vb tb in
  tag (__add__ a b) = tag a ∧
  value (__add__ a b) = va + vb ∧
  tag (__sub__ a b) = tag a ∧
  value (__sub__ a b) = vb - va ∧
  tag (__sub__ (__add__ a b) b) = tag a ∧
  value (__sub__ (__add__ a b) b) = vb - (va + vb).
Proof. cbv zeta. repeat split. Qed.

(** C10: equality looks at the value only, and so do the comparisons
    derived from it: two [PerfLatencyAvg] records with the same value and any
    timestamps compare equal, and compare alike with every other record. *)
Theorem eq_ignores_timestamp (v t1 t2 : Q) :
  let r1 := PerfLatencyAvg v t1 in
  let r2 := PerfLatencyAvg v t2 in
  __eq__ r1 r2 = true ∧
  __ne__ r1 r2 = false ∧
  __lt__ r1 r2 = false ∧
  __le__ r1 r2 = true ∧
  __gt__ r1 r2 = false ∧
  __ge__ r1 r2 = true ∧
  ∀ other,
    __eq__ r1 other = __eq__ r2 other ∧ __eq__ other r1 = __eq__ other r2 ∧
    __lt__ r1 other = __lt__ r2 other ∧ __lt__ other r1 = __lt__ other r2 ∧
    __le__ r1 other = __le__ r2 other ∧ __le__ other r1 = __le__ other r2 ∧
    __gt__ r1 other = __gt__ r2 other ∧ __gt__ other r1 = __gt__ other r2 ∧
    __ge__ r1 other = __ge__ r2 other ∧ __ge__ other r1 = __ge__ other r2.
Proof.
  cbv zeta.
  assert (He : __eq__ (PerfLatencyAvg v t1) (PerfLatencyAvg v t2) = true).
  { apply Qeq_bool_iff. reflexivity. }
  assert (Hl : __lt__ (PerfLatencyAvg v t1) (PerfLatencyAvg v t2) = false).
  { apply Qltb_ge. simpl. apply Qle_refl. }
  unfold __le__, __gt__, __ge__, __ne__. rewrite He, Hl.
  repeat split; reflexivity.
Qed.

End LatencyFacts.

(** ** [ConstraintManager] *)

Module ConstraintFacts.

Import ConstraintManager ConstraintSpec PyFacts.

(** *** The code on a constraints list that covers the measurement *)

Lemma Qsum_app (l1 l2 : list Q) : (Qsum (l1 ++ l2) == Qsum l1 + Qsum l2)%Q.
Proof.
  induction l1 as [|x l1 IH].
  - change (Qsum l2 == 0 + Qsum l2)%Q. ring.
  - change (x + Qsum (l1 ++ l2) == x + Qsum l1 + Qsum l2)%Q. rewrite IH. ring.
Qed.

Section covered.

Context (constraints : constraint_list).

Lemma constraint_for_lt (i : nat) (metric : record) :
  i < length constraints →
  constraint_for constraints i metric = Ok (declared constraints i metric).
Proof.
  intros (ci & Hl & Hg)%getitem_lt.
  unfold constraint_for, declared. rewrite Hg, Hl. by destruct ci.
Qed.

Lemma constraint_for_ge (i : nat) (metric : record) :
  length constraints ≤ i →
  constraint_for constraints i metric = Raise IndexError.
Proof.
  intros Hl%lookup_ge_None_2.
  unfold constraint_for, getitem. by rewrite Hl.
Qed.

Lemma check_metric_lt (i : nat) (metric : record) :
  i < length constraints →
  check_metric constraints i metric
  = Ok (bool_decide (metric_violations constraints i metric = [])).
Proof.
  intros Hi. unfold check_metric, metric_violations.
  rewrite constraint_for_lt by done. simpl.
  destruct (declared constraints i metric) as [c|]; [|done].
  unfold violations_of.
  destruct (c !! "min") as [mn|], (c !! "max") as [mx|]; simpl;
    repeat (match goal with |- context [Qltb ?x ?y] => destruct (Qltb x y) end;
            simpl); done.
Qed.

Lemma check_metrics_lt (i : nat) (model_metrics : list record) :
  i < length constraints →
  check_metrics constraints i model_metrics
  = Ok (bool_decide (model_metrics ≫= metric_violations constraints i = [])).
Proof.
  intros Hi. induction model_metrics as [|metric rest IH]; [done|].
  cbn [check_metrics]. rewrite check_metric_lt, bind_cons by done.
  destruct (decide (metric_violations constraints i metric = [])) as [Hm|Hm].
  - rewrite Hm, bool_decide_eq_true_2 by done. apply IH.
  - rewrite !bool_decide_eq_false_2; [done| |done].
    by intros [? _]%app_eq_nil.
Qed.

Lemma check_models_le (i : nat) (data : measurement) :
  i + length data ≤ length constraints →
  check_models constraints i data
  = Ok (bool_decide (violated_from constraints i data = [])).
Proof.
  revert i. induction data as [|model_metrics rest IH]; intros i Hi; [done|].
  cbn [check_models violated_from length] in *.
  rewrite check_metrics_lt by lia.
  destruct (decide (model_metrics ≫= metric_violations constraints i = []))
    as [Hm|Hm].
  - rewrite Hm, bool_decide_eq_true_2 by done. apply IH. lia.
  - rewrite !bool_decide_eq_false_2; [done| |done].
    by intros [? _]%app_eq_nil.
Qed.

(** Each violated bound in the hypothesis is nonzero, so its division
    returns. *)
Ltac use_nonzero :=
  repeat match goal with
  | H : Forall nonzero_limit (_ :: _) |- _ =>
      let Hx := fresh "Hx" in
      apply Forall_cons in H as [Hx H];
      unfold nonzero_limit in Hx; simpl in Hx;
      rewrite (truediv_ok _ _ Hx)
  end.

Lemma add_metric_lt (i : nat) (metric : record) (failure_percentage : Q) :
  i < length constraints →
  Forall nonzero_limit (metric_violations constraints i metric) →
  ∃ v, add_metric constraints i metric failure_percentage = Ok v ∧
       (v == failure_percentage
             + Qsum (relative_overage
                       <$> metric_violations constraints i metric))%Q.
Proof.
  intros Hi. unfold add_metric, metric_violations.
  rewrite constraint_for_lt by done. simpl.
  destruct (declared constraints i metric) as [c|]; simpl;
    [|intros _; eexists; split; [done|ring]].
  unfold violations_of.
  destruct (c !! "min") as [mn|], (c !! "max") as [mx|]; simpl;
    repeat (match goal with |- context [Qltb ?x ?y] => destruct (Qltb x y) end;
            simpl);
    intros Hnz; use_nonzero; simpl;
    eexists; (split; [done|]); unfold relative_overage; simpl; ring.
Qed.

Lemma add_metrics_lt (i : nat) (model_metrics : list record)
    (failure_percentage : Q) :
  i < length constraints →
  Forall nonzero_limit (model_metrics ≫= metric_violations constraints i) →
  ∃ v, add_metrics constraints i model_metrics failure_percentage = Ok v ∧
       (v == failure_percentage
             + Qsum (relative_overage
                       <$> (model_metrics
                              ≫= metric_violations constraints i)))%Q.
Proof.
  intros Hi. revert failure_percentage.
  induction model_metrics as [|metric rest IH]; intros fp Hnz.
  - exists fp. split; [done|]. change (fp == fp + 0)%Q. ring.
  - rewrite bind_cons in *. apply Forall_app in Hnz as [Hm Hr].
    cbn [add_metrics].
    destruct (add_metric_lt i metric fp Hi Hm) as (v1 & -> & E1).
    destruct (IH v1 Hr) as (v & Hv & E). exists v. split; [done|].
    rewrite E, E1, fmap_app, Qsum_app. ring.
Qed.

Lemma add_models_le (i : nat) (data : measurement) (failure_percentage : Q) :
  i + length data ≤ length constraints →
  Forall nonzero_limit (violated_from constraints i data) →
  ∃ v, add_models constraints i data failure_percentage = Ok v ∧
       (v == failure_percentage
             + Qsum (relative_overage <$> violated_from constraints i data))%Q.
Proof.
  revert i failure_percentage.
  induction data as [|model_metrics rest IH]; intros i fp Hi Hnz.
  - exists fp. split; [done|]. change (fp == fp + 0)%Q. ring.
  - cbn [add_models violated_from length] in *.
    apply Forall_app in Hnz as [Hm Hr].
    destruct (add_metrics_lt i model_metrics fp) as (v1 & -> & E1);
      [lia|done|].
    destruct (IH (S i) v1) as (v & Hv & E); [lia|done|].
    exists v. split; [done|].
    rewrite E, E1, fmap_app, Qsum_app. ring.
Qed.

End covered.

Lemma violated_from_no_constraints (i : nat) (data : measurement) :
  violated_from [] i data = [].
Proof.
  revert i. induction data as [|model_metrics rest IH]; intros i; [done|].
  cbn [violated_from]. rewrite IH, app_nil_r.
  induction model_metrics as [|metric l IHl]; [done|].
  by rewrite bind_cons, IHl.
Qed.

(** *** The code whenever it returns *)

Lemma check_metric_ok (constraints : constraint_list) (i : nat)
    (metric : record) (b : bool) :
  check_metric constraints i metric = Ok b →
  i < length constraints ∧
  b = bool_decide (metric_violations constraints i metric = []).
Proof.
  destruct (decide (i < length constraints)) as [Hi|Hi].
  - rewrite check_metric_lt by done. by intros [= <-].
  - unfold check_metric. by rewrite constraint_for_ge by lia.
Qed.

Lemma check_metrics_ok (constraints : constraint_list) (i : nat)
    (model_metrics : list record) (b : bool) :
  check_metrics constraints i model_metrics = Ok b →
  b = bool_decide (model_metrics ≫= metric_violations constraints i = []).
Proof.
  destruct model_metrics as [|metric rest]; [by intros [= <-]|].
  intros H. assert (i < length constraints) as Hi.
  { cbn [check_metrics] in H.
    destruct (check_metric constraints i metric) as [b1|] eqn:E; [|done].
    by apply check_metric_ok in E as [? _]. }
  rewrite check_metrics_lt in H by done. by injection H as <-.
Qed.

Lemma check_models_ok (constraints : constraint_list) (i : nat)
    (data : measurement) (b : bool) :
  check_models constraints i data = Ok b →
  b = bool_decide (violated_from constraints i data = []).
Proof.
  revert i. induction data as [|model_metrics rest IH]; intros i;
    [by intros [= <-]|].
  cbn [check_models violated_from].
  destruct (check_metrics constraints i model_metrics) as [b1|] eqn:E;
    [|done].
  apply check_metrics_ok in E as ->.
  destruct (decide (model_metrics ≫= metric_violations constraints i = []))
    as [Hm|Hm].
  - rewrite Hm, bool_decide_eq_true_2 by done. apply IH.
  - rewrite !bool_decide_eq_false_2; [by intros [= <-]| |done].
    by intros [? _]%app_eq_nil.
Qed.

Lemma satisfies_constraints_ok (constraints : constraint_list)
    (data : measurement) (b : bool) :
  satisfies_constraints constraints data = Ok b →
  b = bool_decide (violated_bounds constraints data = []).
Proof.
  unfold violated_bounds. destruct constraints as [|c constraints].
  - rewrite violated_from_no_constraints. by intros [= <-].
  - apply check_models_ok.
Qed.

Lemma truediv_returns (x y q : Q) :
  truediv x y = Ok q → ¬ (y == 0)%Q.
Proof.
  unfold truediv. destruct (Qeq_bool y 0) eqn:E; [done|].
  intros _. by apply Qeq_bool_neq.
Qed.

Lemma add_metric_ok (constraints : constraint_list) (i : nat)
    (metric : record) (failure_percentage v : Q) :
  add_metric constraints i metric failure_percentage = Ok v →
  Forall nonzero_limit (metric_violations constraints i metric) ∧
  (v == failure_percentage
        + Qsum (relative_overage
                  <$> metric_violations constraints i metric))%Q.
Proof.
  intros H.
  assert (i < length constraints) as Hi.
  { destruct (decide (i < length constraints)) as [|Hi]; [done|].
    unfold add_metric in H. by rewrite constraint_for_ge in H by lia. }
  assert (Forall nonzero_limit (metric_violations constraints i metric))
    as Hnz.
  { revert H. unfold add_metric, metric_violations.
    rewrite constraint_for_lt by done. simpl.
    destruct (declared constraints i metric) as [c|]; [|constructor].
    unfold violations_of.
    destruct (c !! "min") as [mn|], (c !! "max") as [mx|]; simpl;
      repeat (match goal with
              | |- context [Qltb ?x ?y] => destruct (Qltb x y)
              end; simpl);
      repeat (match goal with
              | |- context [truediv ?x ?y] =>
                  let E := fresh "E" in
                  destruct (truediv x y) eqn:E;
                  [apply truediv_returns in E|done]; simpl
              end);
      intros _; repeat constructor; done. }
  split; [done|].
  destruct (add_metric_lt _ i metric failure_percentage Hi Hnz)
    as (v' & Hv' & E).
  rewrite Hv' in H. by injection H as <-.
Qed.

Lemma add_metrics_ok (constraints : constraint_list) (i : nat)
    (model_metrics : list record) (failure_percentage v : Q) :
  add_metrics constraints i model_metrics failure_percentage = Ok v →
  Forall nonzero_limit (model_metrics ≫= metric_violations constraints i) ∧
  (v == failure_percentage
        + Qsum (relative_overage
                  <$> (model_metrics ≫= metric_violations constraints i)))%Q.
Proof.
  revert failure_percentage.
  induction model_metrics as [|metric rest IH]; intros fp.
  - intros [= <-]. split; [constructor|]. change (fp == fp + 0)%Q. ring.
  - cbn [add_metrics]. rewrite bind_cons.
    destruct (add_metric constraints i metric fp) as [v1|] eqn:E1; [|done].
    apply add_metric_ok in E1 as [Hm E1]. simpl.
    intros [Hr E]%IH. split; [by apply Forall_app|].
    rewrite E, E1, fmap_app, Qsum_app. ring.
Qed.

Lemma add_models_ok (constraints : constraint_list) (i : nat)
    (data : measurement) (failure_percentage v : Q) :
  add_models constraints i data failure_percentage = Ok v →
  Forall nonzero_limit (violated_from constraints i data) ∧
  (v == failure_percentage
        + Qsum (relative_overage <$> violated_from constraints i data))%Q.
Proof.
  revert i failure_percentage.
  induction data as [|model_metrics rest IH]; intros i fp.
  - intros [= <-]. split; [constructor|]. change (fp == fp + 0)%Q. ring.
  - cbn [add_models violated_from].
    destruct (add_metrics constraints i model_metrics fp) as [v1|] eqn:E1;
      [|done].
    apply add_metrics_ok in E1 as [Hm E1]. simpl.
    intros [Hr E]%IH. split; [by apply Forall_app|].
    rewrite E, E1, fmap_app, Qsum_app. ring.
Qed.

Lemma constraint_failure_percentage_ok (constraints : constraint_list)
    (data : measurement) (v : Q) :
  constraint_failure_percentage constraints data = Ok v →
  Forall nonzero_limit (violated_bounds constraints data) ∧
  (v == infeasibilityScore constraints data)%Q.
Proof.
  unfold constraint_failure_percentage, infeasibilityScore, violated_bounds.
  destruct constraints as [|c constraints].
  - rewrite violated_from_no_constraints. intros [= <-].
    split; [constructor|]. change (0 * 100 == 100 * 0)%Q. ring.
  - destruct (add_models (c :: constraints) 0 data 0%Q) as [fp|] eqn:E;
      [|done].
    apply add_models_ok in E as [Hnz E]. intros [= <-].
    split; [done|]. rewrite E. ring.
Qed.

(** *** The code on a per-entity constraints list *)

Lemma satisfies_constraints_covered (constraints : constraint_list)
    (data : measurement) :
  covers constraints data →
  satisfies_constraints constraints data
  = Ok (bool_decide (violated_bounds constraints data = [])).
Proof.
  unfold violated_bounds. intros [->|Hlen].
  - by rewrite violated_from_no_constraints.
  - destruct constraints as [|c constraints].
    + by rewrite violated_from_no_constraints.
    + apply check_models_le. simpl in *. lia.
Qed.

Lemma constraint_failure_percentage_covered (constraints : constraint_list)
    (data : measurement) :
  covers constraints data →
  Forall nonzero_limit (violated_bounds constraints data) →
  ∃ v, constraint_failure_percentage constraints data = Ok v ∧
       (v == infeasibilityScore constraints data)%Q.
Proof.
  unfold violated_bounds, infeasibilityScore, constraint_failure_percentage.
  intros Hc Hnz.
  assert (constraints = [] ∨
          constraints ≠ [] ∧ 0 + length data ≤ length constraints)
    as [->|[Hne Hlen]].
  { destruct Hc as [->|?]; [by left|].
    destruct constraints; [by left|right; split; [done|simpl in *; lia]]. }
  - exists (0 * 100)%Q. split; [done|].
    unfold violated_bounds. rewrite violated_from_no_constraints.
    change (0 * 100 == 100 * 0)%Q. ring.
  - destruct (add_models_le constraints 0 data 0%Q Hlen Hnz) as (v & Hv & E).
    exists (v * 100)%Q. split.
    + destruct constraints; [done|]. by rewrite Hv.
    + unfold violated_bounds. rewrite E. ring.
Qed.

(** *** No violated bound: every constrained metric is within its bounds *)

Lemma violations_of_nil (constraint : gmap string Q) (v : Q) :
  violations_of constraint v = [] ↔ within constraint v.
Proof.
  unfold violations_of, within.
  destruct (constraint !! "min") as [mn|], (constraint !! "max") as [mx|];
    repeat (match goal with
            | |- context [Qltb ?x ?y] =>
                let E := fresh "E" in
                destruct (Qltb x y) eqn:E;
                [apply Qltb_lt in E | apply Qltb_ge in E]
            end);
    simpl; split; try done;
    try (intros [Hmin Hmax];
         try specialize (Hmin _ eq_refl); try specialize (Hmax _ eq_refl);
         exfalso; lra);
    intros _; split; intros ? [= <-]; done.
Qed.

Lemma metric_violations_nil (constraints : constraint_list) (i : nat)
    (metric : record) :
  metric_violations constraints i metric = [] ↔
  ∀ constraint,
    declared constraints i metric = Some constraint →
    within constraint (value metric).
Proof.
  unfold metric_violations.
  destruct (declared constraints i metric) as [c|].
  - rewrite violations_of_nil. split; [by intros ? ? [= <-]|auto].
  - split; done.
Qed.

Lemma bind_eq_nil {A B} (f : A → list B) (l : list A) :
  l ≫= f = [] ↔ Forall (λ x, f x = []) l.
Proof.
  induction l as [|x l IH]; [done|].
  rewrite bind_cons, Forall_cons, <- IH. split.
  - by intros [? ?]%app_eq_nil.
  - by intros [-> ->].
Qed.

Lemma violated_from_nil (constraints : constraint_list) (i : nat)
    (data : measurement) :
  violated_from constraints i data = [] ↔
  ∀ k model_metrics metric constraint,
    data !! k = Some model_metrics →
    metric ∈ model_metrics →
    declared constraints (i + k) metric = Some constraint →
    within constraint (value metric).
Proof.
  revert i. induction data as [|mm rest IH]; intros i.
  - split; [|done]. intros _ k ? ? ? Hk. by rewrite lookup_nil in Hk.
  - cbn [violated_from]. split.
    + intros [Hm Hr]%app_eq_nil k model_metrics metric c Hk Hin Hd.
      destruct k as [|k]; simpl in Hk.
      * injection Hk as <-. rewrite Nat.add_0_r in Hd.
        rewrite bind_eq_nil, Forall_forall in Hm.
        eapply metric_violations_nil; [by apply Hm|done].
      * rewrite IH in Hr. eapply (Hr k); [done..|].
        by replace (S i + k) with (i + S k) by lia.
    + intros H. apply app_nil. split.
      * apply bind_eq_nil, Forall_forall. intros metric Hin.
        apply metric_violations_nil. intros c Hd.
        apply (H 0 mm metric c); [done..|]. by rewrite Nat.add_0_r.
      * apply IH. intros k model_metrics metric c Hk Hin Hd.
        apply (H (S k) model_metrics metric c); [done..|].
        by replace (i + S k) with (S i + k) by lia.
Qed.

Lemma violated_bounds_nil (constraints : constraint_list)
    (data : measurement) :
  violated_bounds constraints data = [] ↔ all_within constraints data.
Proof. apply violated_from_nil. Qed.

(** C1: whenever [satisfies_constraints] returns [True], every constrained
    metric of every entity is at least the declared ['min'] and at most the
    declared ['max'] (each when present); whenever it returns [False], one of
    them is not; and on a constraints list with an entry per entity it
    returns [True] exactly when all are within their bounds and [False]
    exactly when one is not. *)
Theorem satisfies_constraints_iff (constraints : constraint_list)
    (data : measurement) :
  (satisfies_constraints constraints data = Ok true →
   all_within constraints data) ∧
  (satisfies_constraints constraints data = Ok false →
   ¬ all_within constraints data) ∧
  (covers constraints data →
   (satisfies_constraints constraints data = Ok true ↔
    all_within constraints data) ∧
   (satisfies_constraints constraints data = Ok false ↔
    ¬ all_within constraints data)).
Proof.
  rewrite <- violated_bounds_nil. split; [|split].
  - intros H%satisfies_constraints_ok. symmetry in H.
    by apply bool_decide_eq_true in H.
  - intros H%satisfies_constraints_ok. symmetry in H.
    by apply bool_decide_eq_false in H.
  - intros Hc. rewrite satisfies_constraints_covered by done.
    case_bool_decide; split; split; try done; by intros [= ?].
Qed.

Lemma satisfies_constraints_iff_witness :
  covers (Samples.latency_max 100) (Samples.latency_measured 150) ∧
  (satisfies_constraints (Samples.latency_max 100)
     (Samples.latency_measured 150) = Ok true ↔
   all_within (Samples.latency_max 100) (Samples.latency_measured 150)) ∧
  (satisfies_constraints (Samples.latency_max 100)
     (Samples.latency_measured 150) = Ok false ↔
   ¬ all_within (Samples.latency_max 100) (Samples.latency_measured 150)).
Proof.
  assert (Hc : covers (Samples.latency_max 100)
                 (Samples.latency_measured 150)) by (right; simpl; lia).
  split; [exact Hc|].
  exact (proj2 (proj2 (satisfies_constraints_iff (Samples.latency_max 100)
                         (Samples.latency_measured 150))) Hc).
Defined.

(** C2: whatever [constraint_failure_percentage] returns is 100 times the
    sum of the relative overages [(min − value)/min] and [(value − max)/max]
    of all violated bounds, and it does return on a constraints list with an
    entry per entity when the overages are defined (no violated bound is
    zero); the constraint [{max: 100}] against the value 150 contributes 50,
    and [satisfies_constraints] is [False] there. *)
Theorem constraint_failure_percentage_sum :
  (∀ (constraints : constraint_list) (data : measurement) (v : Q),
     constraint_failure_percentage constraints data = Ok v →
     (v == infeasibilityScore constraints data)%Q) ∧
  (∀ (constraints : constraint_list) (data : measurement),
     covers constraints data →
     Forall nonzero_limit (violated_bounds constraints data) →
     ∃ v, constraint_failure_percentage constraints data = Ok v ∧
          (v == infeasibilityScore constraints data)%Q) ∧
  (100 * relative_overage (mkViolation MaxBound 100 150) == 50)%Q ∧
  (∃ v, constraint_failure_percentage (Samples.latency_max 100)
          (Samples.latency_measured 150) = Ok v ∧ (v == 50)%Q) ∧
  satisfies_constraints (Samples.latency_max 100)
    (Samples.latency_measured 150) = Ok false.
Proof.
  split; [by intros ? ? ? [_ ?]%constraint_failure_percentage_ok|].
  split; [apply constraint_failure_percentage_covered|].
  split; [reflexivity|]. split; [|reflexivity].
  eexists. split; [vm_compute; reflexivity|reflexivity].
Qed.

Lemma constraint_failure_percentage_sum_witness :
  covers (Samples.latency_max 100) (Samples.latency_measured 150) ∧
  Forall nonzero_limit
    (violated_bounds (Samples.latency_max 100)
       (Samples.latency_measured 150)) ∧
  ∃ v, constraint_failure_percentage (Samples.latency_max 100)
         (Samples.latency_measured 150) = Ok v ∧
       (v == infeasibilityScore (Samples.latency_max 100)
                (Samples.latency_measured 150))%Q.
Proof.
  assert (Hc : covers (Samples.latency_max 100)
                 (Samples.latency_measured 150)) by (right; simpl; lia).
  assert (Hnz : Forall nonzero_limit
                  (violated_bounds (Samples.latency_max 100)
                     (Samples.latency_measured 150))).
  { change (Forall nonzero_limit [mkViolation MaxBound 100 150]).
    constructor; [|constructor]. intros H. discriminate H. }
  split; [exact Hc|]. split; [exact Hnz|].
  exact (proj1 (proj2 constraint_failure_percentage_sum) _ _ Hc Hnz).
Defined.

(** *** Sign of the score *)

Lemma violations_of_violated (constraint : gmap string Q) (v : Q) :
  Forall violated (violations_of constraint v).
Proof.
  unfold violations_of.
  destruct (constraint !! "min") as [mn|], (constraint !! "max") as [mx|];
    repeat (match goal with
            | |- context [Qltb ?x ?y] =>
                let E := fresh "E" in
                destruct (Qltb x y) eqn:E; [apply Qltb_lt in E|clear E]
            end);
    simpl; repeat constructor; done.
Qed.

Lemma violated_from_violated (constraints : constraint_list) (i : nat)
    (data : measurement) :
  Forall violated (violated_from constraints i data).
Proof.
  revert i. induction data as [|mm rest IH]; intros i; [constructor|].
  cbn [violated_from]. apply Forall_app. split; [|apply IH].
  induction mm as [|metric l IHl]; [constructor|].
  rewrite bind_cons. apply Forall_app. split; [|done].
  unfold metric_violations.
  destruct (declared constraints i metric);
    [apply violations_of_violated|constructor].
Qed.

Lemma relative_overage_pos (x : violation) :
  violated x → positive_limit x → (0 < relative_overage x)%Q.
Proof.
  unfold violated, positive_limit, relative_overage.
  destruct (kind x); intros Hv Hp; apply Qlt_shift_div_l; lra.
Qed.

Lemma Qsum_pos (l : list Q) :
  Forall (λ q, (0 < q)%Q) l → l ≠ [] → (0 < Qsum l)%Q.
Proof.
  induction 1 as [|q l Hq Hl IH]; [done|]. intros _.
  change (0 < q + Qsum l)%Q.
  destruct l as [|q' l']; [change (0 < q + 0)%Q; lra|].
  assert (0 < Qsum (q' :: l'))%Q by (by apply IH). lra.
Qed.

Lemma infeasibilityScore_pos (constraints : constraint_list)
    (data : measurement) :
  Forall positive_limit (violated_bounds constraints data) →
  violated_bounds constraints data ≠ [] →
  (0 < infeasibilityScore constraints data)%Q.
Proof.
  intros Hp Hne. unfold infeasibilityScore.
  assert (0 < Qsum (relative_overage <$> violated_bounds constraints data))%Q
    as Hs; [|lra].
  apply Qsum_pos; [|by destruct (violated_bounds constraints data)].
  apply Forall_fmap.
  assert (Forall (λ x, violated x ∧ positive_limit x)
            (violated_bounds constraints data)) as Hvp.
  { apply Forall_and. split; [apply violated_from_violated|done]. }
  eapply Forall_impl; [exact Hvp|].
  intros x [? ?]. by apply relative_overage_pos.
Qed.

Lemma positive_nonzero (l : list violation) :
  Forall positive_limit l → Forall nonzero_limit l.
Proof.
  intros H. eapply Forall_impl; [exact H|].
  unfold positive_limit, nonzero_limit. intros x Hx E. rewrite E in Hx. by apply Qlt_irrefl in Hx.
Qed.

(** C3, as stated, fails.  With the bound [{max: −5}] and the value 5 the
    score is −200.  With the bounds [{max: 5}] and [{max: −5}] on two models
    and the values 10 and 0 the overages 1 and −1 cancel: the score is 0
    although [satisfies_constraints] is [False]. *)
Lemma failure_percentage_negative_or_cancelling :
  (∃ v, constraint_failure_percentage (Samples.latency_max (-5))
          (Samples.latency_measured 5) = Ok v ∧ (v < 0)%Q) ∧
  (∃ v, constraint_failure_percentage Samples.two_latency_max
          Samples.two_latency_measured = Ok v ∧ (v == 0)%Q) ∧
  satisfies_constraints Samples.two_latency_max Samples.two_latency_measured
  = Ok false.
Proof.
  split; [|split; [|reflexivity]].
  - eexists. split; [vm_compute; reflexivity|reflexivity].
  - eexists. split; [vm_compute; reflexivity|reflexivity].
Qed.

(** C3, amended: when the constraints list has an entry per entity and every
    violated bound is positive, the value returned by
    [constraint_failure_percentage] is [>= 0], and it is 0 exactly when
    [satisfies_constraints] returns [True]. *)
Theorem failure_percentage_zero_iff_satisfied (constraints : constraint_list)
    (data : measurement) :
  covers constraints data →
  Forall positive_limit (violated_bounds constraints data) →
  ∃ v, constraint_failure_percentage constraints data = Ok v ∧
       (0 <= v)%Q ∧
       ((v == 0)%Q ↔ satisfies_constraints constraints data = Ok true).
Proof.
  intros Hc Hp.
  destruct (constraint_failure_percentage_covered constraints data Hc
              (positive_nonzero _ Hp)) as (v & Hv & E).
  exists v. split; [done|].
  rewrite satisfies_constraints_covered, E by done.
  destruct (decide (violated_bounds constraints data = [])) as [Hn|Hn].
  - rewrite bool_decide_eq_true_2 by done.
    unfold infeasibilityScore. rewrite Hn.
    change (0 <= 100 * 0 ∧ (100 * 0 == 0 ↔ Ok true = Ok true))%Q.
    split; [lra|]. split; [done|]. intros _. ring.
  - rewrite bool_decide_eq_false_2 by done.
    pose proof (infeasibilityScore_pos constraints data Hp Hn) as Hpos.
    split; [lra|]. split; [|done].
    intros E0. rewrite E0 in Hpos. by apply Qlt_irrefl in Hpos.
Qed.

Lemma failure_percentage_zero_iff_satisfied_witness :
  covers (Samples.latency_max 100) (Samples.latency_measured 150) ∧
  Forall positive_limit
    (violated_bounds (Samples.latency_max 100)
       (Samples.latency_measured 150)) ∧
  ∃ v, constraint_failure_percentage (Samples.latency_max 100)
         (Samples.latency_measured 150) = Ok v ∧
       (0 <= v)%Q ∧
       ((v == 0)%Q ↔
        satisfies_constraints (Samples.latency_max 100)
          (Samples.latency_measured 150) = Ok true).
Proof.
  assert (Hc : covers (Samples.latency_max 100)
                 (Samples.latency_measured 150)) by (right; simpl; lia).
  assert (Hp : Forall positive_limit
                 (violated_bounds (Samples.latency_max 100)
                    (Samples.latency_measured 150))).
  { change (Forall positive_limit [mkViolation MaxBound 100 150]).
    constructor; [|constructor]. reflexivity. }
  split; [exact Hc|]. split; [exact Hp|].
  exact (failure_percentage_zero_iff_satisfied _ _ Hc Hp).
Defined.

(** *** No exceptions *)

(** C8, as stated, fails: the violated bound [{max: 0}] makes
    [constraint_failure_percentage] divide by zero. *)
Lemma failure_percentage_raises_on_zero_bound :
  covers (Samples.latency_max 0) (Samples.latency_measured 5) ∧
  satisfies_constraints (Samples.latency_max 0) (Samples.latency_measured 5)
  = Ok false ∧
  constraint_failure_percentage (Samples.latency_max 0)
    (Samples.latency_measured 5) = Raise ZeroDivisionError.
Proof. split; [right; simpl; lia|]. split; reflexivity. Qed.

(** A constraints list that is shorter than the measurement is indexed out
    of range. *)
Lemma satisfies_constraints_short_list :
  satisfies_constraints (Samples.latency_max 100)
    Samples.two_latency_measured = Raise IndexError.
Proof. reflexivity. Qed.

(** C8, amended: when the constraints list has an entry per entity,
    [satisfies_constraints] returns a boolean and never raises, and
    [constraint_failure_percentage] returns a number whenever no violated
    bound is zero. *)
Theorem constraint_checks_return (constraints : constraint_list)
    (data : measurement) :
  covers constraints data →
  returns (satisfies_constraints constraints data) ∧
  (Forall nonzero_limit (violated_bounds constraints data) →
   returns (constraint_failure_percentage constraints data)).
Proof.
  intros Hc. split.
  - rewrite satisfies_constraints_covered by done. by eexists.
  - intros Hnz.
    destruct (constraint_failure_percentage_covered constraints data Hc Hnz)
      as (v & Hv & _).
    by exists v.
Qed.

Lemma constraint_checks_return_witness :
  covers (Samples.latency_max 100) (Samples.latency_measured 150) ∧
  returns (satisfies_constraints (Samples.latency_max 100)
             (Samples.latency_measured 150)) ∧
  (Forall nonzero_limit
     (violated_bounds (Samples.latency_max 100)
        (Samples.latency_measured 150)) →
   returns (constraint_failure_percentage (Samples.latency_max 100)
              (Samples.latency_measured 150))).
Proof.
  assert (Hc : covers (Samples.latency_max 100)
                 (Samples.latency_measured 150)) by (right; simpl; lia).
  split; [exact Hc|].
  exact (constraint_checks_return _ _ Hc).
Defined.

(** *** Widening a bound *)

Lemma check_metric_true (constraints : constraint_list) (i : nat)
    (metric : record) :
  check_metric constraints i metric = Ok true ↔
  i < length constraints ∧
  ∀ constraint,
    declared constraints i metric = Some constraint →
    within constraint (value metric).
Proof.
  rewrite <- metric_violations_nil.
  destruct (decide (i < length constraints)) as [Hi|Hi].
  - rewrite check_metric_lt by done.
    case_bool_decide as Hn; split; try done; by intros [_ ?].
  - unfold check_metric. rewrite constraint_for_ge by lia.
    split; [done|]. by intros [? _].
Qed.

Lemma within_wider (c c' : gmap string Q) (v : Q) :
  wider c c' → within c v → within c' v.
Proof.
  intros [Hmin Hmax] [Hlo Hhi]. split.
  - intros mn' (mn & Hmn & Hle)%Hmin. specialize (Hlo _ Hmn). lra.
  - intros mx' (mx & Hmx & Hle)%Hmax. specialize (Hhi _ Hmx). lra.
Qed.

Section widen.

Context (constraints : constraint_list) (i : nat) (d : constraint_dict)
  (t : string) (c c' : gmap string Q).
Context (Hi : constraints !! i = Some (Some d)) (Ht : d !! t = Some c)
  (Hw : wider c c').

Lemma check_metric_widen (j : nat) (metric : record) :
  check_metric constraints j metric = Ok true →
  check_metric (<[i := Some (<[t := c']> d)]> constraints) j metric
  = Ok true.
Proof using Hi Ht Hw.
  rewrite !check_metric_true, length_insert.
  intros [Hj Hin]. split; [done|]. intros c0. unfold declared in *.
  destruct (decide (j = i)) as [->|Hne].
  - rewrite list_lookup_insert_eq by exact Hj. rewrite Hi in Hin. simpl in *.
    destruct (decide (t = tag metric)) as [E|Hnt].
    + rewrite <- E, lookup_insert_eq. intros [= <-].
      eapply within_wider; [exact Hw|]. apply Hin. by rewrite <- E.
    + rewrite lookup_insert_ne by done. apply Hin.
  - rewrite list_lookup_insert_ne by done. apply Hin.
Qed.

Lemma check_metrics_widen (j : nat) (model_metrics : list record) :
  check_metrics constraints j model_metrics = Ok true →
  check_metrics (<[i := Some (<[t := c']> d)]> constraints) j model_metrics
  = Ok true.
Proof using Hi Ht Hw.
  induction model_metrics as [|metric rest IH]; [done|].
  cbn [check_metrics].
  destruct (check_metric constraints j metric) as [[|]|e] eqn:E; try done.
  rewrite (check_metric_widen _ _ E). exact IH.
Qed.

Lemma check_models_widen (j : nat) (data : measurement) :
  check_models constraints j data = Ok true →
  check_models (<[i := Some (<[t := c']> d)]> constraints) j data = Ok true.
Proof using Hi Ht Hw.
  revert j. induction data as [|model_metrics rest IH]; intros j; [done|].
  cbn [check_models].
  destruct (check_metrics constraints j model_metrics) as [[|]|e] eqn:E;
    try done.
  rewrite (check_metrics_widen _ _ E). apply IH.
Qed.

End widen.

(** C7: [satisfies_constraints] is monotonic in the bounds: if it returns
    [True], it still returns [True] after the interval of any single
    declared constraint is replaced by a wider one (a smaller or absent
    [min], a larger or absent [max]). *)
Theorem satisfies_constraints_monotonic (constraints : constraint_list)
    (data : measurement) (i : nat) (d : constraint_dict) (t : string)
    (c c' : gmap string Q) :
  constraints !! i = Some (Some d) →
  d !! t = Some c →
  wider c c' →
  satisfies_constraints constraints data = Ok true →
  satisfies_constraints (<[i := Some (<[t := c']> d)]> constraints) data
  = Ok true.
Proof.
  intros Hi Ht Hw. unfold satisfies_constraints.
  destruct constraints as [|c0 constraints]; [done|].
  destruct i as [|i]; cbn [insert list_insert];
    eapply (check_models_widen _ _ _ _ _ _ Hi Ht Hw).
Qed.

Lemma satisfies_constraints_monotonic_witness :
  Samples.latency_max 200 !! 0
  = Some (Some {[ "perf_latency_avg" := {[ "max" := 200%Q ]} ]}) ∧
  ({[ "perf_latency_avg" := {[ "max" := 200%Q ]} ]} : constraint_dict)
    !! "perf_latency_avg" = Some {[ "max" := 200%Q ]} ∧
  wider {[ "max" := 200%Q ]} ∅ ∧
  satisfies_constraints (Samples.latency_max 200)
    (Samples.latency_measured 150) = Ok true ∧
  satisfies_constraints
    (<[0 := Some (<["perf_latency_avg" := ∅]>
                    {[ "perf_latency_avg" := {[ "max" := 200%Q ]} ]})]>
       (Samples.latency_max 200))
    (Samples.latency_measured 150) = Ok true.
Proof.
  assert (Hw : wider {[ "max" := 200%Q ]} ∅).
  { split; intros ? H; by rewrite lookup_empty in H. }
  split; [reflexivity|]. split; [reflexivity|]. split; [exact Hw|].
  split; [reflexivity|].
  exact (satisfies_constraints_monotonic (Samples.latency_max 200)
           (Samples.latency_measured 150) 0
           {[ "perf_latency_avg" := {[ "max" := 200%Q ]} ]}
           "perf_latency_avg" {[ "max" := 200%Q ]} ∅
           eq_refl eq_refl Hw eq_refl).
Defined.

End ConstraintFacts.

(** ** The quick run-config generator *)

Module QuickSearchFacts.

Import QuickSearch QuickSearch.Fixture.

Local Open Scope Z_scope.

(** *** The model against the test *)

(** [test_get_next_run_config]: the model produces the configuration the
    test expects: batch size 32, instance count 8, concurrency 512. *)
Lemma test_get_next_run_config :
  _get_next_run_config qrcg_5_7 = Ok expected_5_7.
Proof. vm_compute. reflexivity. Qed.

(** The instance count the test expects fixes the offset of the linear
    law. *)
Lemma linear_offset_fixed_by_test (offset : Z) :
  resolve_with offset instance_count_dim 7 = 8 → offset = linear_offset.
Proof. unfold resolve_with, linear_offset. simpl. lia. Qed.

Lemma ensemble_values :
  get_values_for_coordinate ensemble_dims [1; 2; 4; 5] = Ok ensemble_vals.
Proof. vm_compute. reflexivity. Qed.

(** [test_get_next_run_config_ensemble] and its [max_concurrency] and
    [min_concurrency] variants, for every value of the two options: the
    model produces the two expected submodel configurations and the asserted
    ['concurrency-range'] and ['batch-size']. *)
Lemma test_get_next_run_config_ensemble (max_concurrency min_concurrency : Z) :
  ∃ rc,
    _get_next_run_config (qrcg_ensemble max_concurrency min_concurrency)
    = Ok [rc] ∧
    ensemble_subconfigs rc = expected_ensemble_subconfigs ∧
    perf_config rc !! "concurrency-range"
    = Some (expected_ensemble_concurrency max_concurrency min_concurrency) ∧
    perf_config rc !! "batch-size" = Some 1.
Proof.
  unfold _get_next_run_config, qrcg_ensemble. cbn [dimensions config models
    _coordinate_to_measure]. rewrite ensemble_values.
  unfold expected_ensemble_concurrency, ensemble_config, option_of_arg.
  destruct (max_concurrency =? 0), (min_concurrency =? 0);
    eexists; (split; [vm_compute; reflexivity|]); repeat split.
Qed.

(** *** Value resolution *)

(** C6, as stated, fails: the linear slot 7 of the coordinate [[5,7]]
    resolves to the instance count 8 that [test_get_next_run_config]
    expects, not to 7. *)
Lemma linear_slot_is_one_based :
  get_type instance_count_dim = DIMENSION_TYPE_LINEAR ∧
  get_min_idx instance_count_dim ≤ 7 ∧
  get_value_at_idx instance_count_dim 7 ≠ 7 ∧
  ∃ vals,
    get_values_for_coordinate batch_and_instances [5; 7] = Ok vals ∧
    dimension_value vals 0 "max_batch_size" = Ok 32 ∧
    dimension_value vals 0 "instance_count" = Ok 8 ∧
    dimension_value vals 0 "instance_count" ≠ Ok 7.
Proof.
  split; [reflexivity|]. split; [done|]. split; [done|].
  eexists. split; [vm_compute; reflexivity|]. repeat split. done.
Qed.

(** The law of one slot at or above the dimension's minimum. *)
Lemma get_value_at_idx_law (d : SearchDimension) (v : Z) :
  get_min_idx d ≤ v →
  get_value_at_idx d v
  = match get_type d with
    | DIMENSION_TYPE_LINEAR => v + 1
    | DIMENSION_TYPE_EXPONENTIAL => 2 ^ v
    end.
Proof.
  intros Hmin. unfold get_value_at_idx, resolve_with, linear_offset.
  by rewrite Z.max_l by lia.
Qed.

(** A value is left alone by the slots that resolve other dimensions. *)
Lemma values_from_untouched (sd : SearchDimensions) (coordinate : Coordinate)
    (vals0 vals : gmap nat (gmap string Z)) (key : nat) (name : string) :
  values_from sd coordinate vals0 = Ok vals →
  (∀ k key' d', (k < length coordinate)%nat → sd !! k = Some (key', d') →
                ¬ (key' = key ∧ get_name d' = name)) →
  vals !! key ≫= (.!! name) = vals0 !! key ≫= (.!! name).
Proof.
  revert sd vals0. induction coordinate as [|v coordinate IH]; intros sd vals0.
  - cbn [values_from]. by intros [= <-].
  - destruct sd as [|[key0 d0] sd]; [done|]. cbn [values_from].
    intros Hv Hno. rewrite (IH _ _ Hv).
    + assert (¬ (key0 = key ∧ get_name d0 = name)) as Hne
        by (apply (Hno 0%nat); [simpl; lia|done]).
      destruct (decide (key0 = key)) as [->|Hk].
      * rewrite lookup_insert_eq. simpl.
        rewrite lookup_insert_ne by (intros E; apply Hne; by split).
        rewrite lookup_total_alt. by destruct (vals0 !! key).
      * by rewrite lookup_insert_ne.
    + intros k key' d' Hk Hs. apply (Hno (S k)); [simpl; lia|done].
Qed.

(** The value found for a dimension is the one its last slot resolves to. *)
Lemma values_from_slot (sd : SearchDimensions) (coordinate : Coordinate)
    (vals0 vals : gmap nat (gmap string Z)) (k key : nat)
    (d : SearchDimension) (v : Z) :
  values_from sd coordinate vals0 = Ok vals →
  sd !! k = Some (key, d) →
  coordinate !! k = Some v →
  (∀ k' key' d', (k < k')%nat → (k' < length coordinate)%nat →
                 sd !! k' = Some (key', d') →
                 ¬ (key' = key ∧ get_name d' = get_name d)) →
  dimension_value vals key (get_name d) = Ok (get_value_at_idx d v).
Proof.
  revert sd vals0 k.
  induction coordinate as [|v0 coordinate IH]; intros sd vals0 k;
    [by rewrite lookup_nil|].
  destruct sd as [|[key0 d0] sd]; [done|]. cbn [values_from].
  intros Hv Hs Hc Hlast. destruct k as [|k]; simpl in Hs, Hc.
  - injection Hs as -> ->. injection Hc as ->. unfold dimension_value.
    rewrite (values_from_untouched _ _ _ _ key (get_name d) Hv).
    + rewrite lookup_insert_eq. simpl. by rewrite lookup_insert_eq.
    + intros k' key' d' Hk' Hs'.
      apply (Hlast (S k')); [lia|simpl; lia|done].
  - eapply IH; [done..|]. intros k' key' d' ? ? Hs'.
    apply (Hlast (S k')); [lia|simpl; lia|done].
Qed.

Lemma values_from_returns (sd : SearchDimensions) (coordinate : Coordinate)
    (vals0 : gmap nat (gmap string Z)) :
  (length coordinate ≤ length sd)%nat →
  returns (values_from sd coordinate vals0).
Proof.
  revert sd vals0. induction coordinate as [|v coordinate IH]; intros sd vals0.
  - by eexists.
  - destruct sd as [|[key d] sd]; simpl; [lia|]. intros H. apply IH. lia.
Qed.

(** C6, amended: for every coordinate with a dimension for each of its
    slots, the value resolved for a dimension whose slot [v] is at or above
    the dimension's minimum is [v + 1] under the Linear law (the instance
    count is one-based) and [2^v] under the Exponential law; the coordinate
    [[5,7]] over [{max_batch_size: Exponential, instance_count: Linear}]
    resolves to batch size 32 and instance count 8. *)
Theorem slot_resolution :
  (∀ (sd : SearchDimensions) (coordinate : Coordinate) (k key : nat)
     (d : SearchDimension) (v : Z),
     (length coordinate ≤ length sd)%nat →
     sd !! k = Some (key, d) →
     coordinate !! k = Some v →
     get_min_idx d ≤ v →
     (∀ k' key' d', (k < k')%nat → (k' < length coordinate)%nat →
                    sd !! k' = Some (key', d') →
                    ¬ (key' = key ∧ get_name d' = get_name d)) →
     ∃ vals,
       get_values_for_coordinate sd coordinate = Ok vals ∧
       dimension_value vals key (get_name d)
       = Ok match get_type d with
            | DIMENSION_TYPE_LINEAR => v + 1
            | DIMENSION_TYPE_EXPONENTIAL => 2 ^ v
            end) ∧
  ∃ vals,
    get_values_for_coordinate batch_and_instances [5; 7] = Ok vals ∧
    dimension_value vals 0 "max_batch_size" = Ok 32 ∧
    dimension_value vals 0 "instance_count" = Ok 8.
Proof.
  split.
  - intros sd coordinate k key d v Hlen Hs Hc Hmin Hlast.
    destruct (values_from_returns sd coordinate ∅ Hlen) as [vals Hv].
    exists vals. split; [done|].
    rewrite <- get_value_at_idx_law by done.
    by eapply values_from_slot.
  - eexists. split; [vm_compute; reflexivity|]. split; reflexivity.
Qed.

Lemma slot_resolution_witness :
  (length [5; 7] ≤ length batch_and_instances)%nat ∧
  batch_and_instances !! 1%nat = Some (0%nat, instance_count_dim) ∧
  [5; 7] !! 1%nat = Some 7 ∧
  get_min_idx instance_count_dim ≤ 7 ∧
  ∃ vals,
    get_values_for_coordinate batch_and_instances [5; 7] = Ok vals ∧
    dimension_value vals 0 (get_name instance_count_dim) = Ok (7 + 1).
Proof.
  assert (Hlen : (length [5; 7] ≤ length batch_and_instances)%nat)
    by (simpl; lia).
  assert (Hmin : get_min_idx instance_count_dim ≤ 7) by (simpl; lia).
  split; [exact Hlen|]. split; [reflexivity|]. split; [reflexivity|].
  split; [exact Hmin|].
  refine (proj1 slot_resolution batch_and_instances [5; 7] 1%nat 0%nat
            instance_count_dim 7 Hlen eq_refl eq_refl Hmin _).
  intros k' key' d' Hk Hk'. simpl in Hk'. lia.
Defined.

(** Below its minimum a slot resolves as the minimum does. *)
Lemma slot_below_minimum (d : SearchDimension) (v : Z) :
  v ≤ get_min_idx d →
  get_value_at_idx d v = get_value_at_idx d (get_min_idx d).
Proof.
  intros H. unfold get_value_at_idx, resolve_with.
  by rewrite Z.max_r, Z.max_id by lia.
Qed.

(** *** Composite concurrency *)

Lemma foldl_min_spec (l : list Z) (c : Z) :
  is_minimum (foldl Z.min c l) (c :: l).
Proof.
  revert c. induction l as [|x l IH]; intros c.
  - split; [by left|]. intros ? ->%list_elem_of_singleton. simpl. lia.
  - cbn [foldl]. destruct (IH (Z.min c x)) as [Hin Hle]. split.
    + apply elem_of_cons in Hin as [->|Hin].
      * destruct (Z.min_spec c x) as [[_ ->]|[_ ->]];
          [by left|by right; left].
      * by right; right.
    + intros y Hy.
      assert (foldl Z.min (Z.min c x) l ≤ Z.min c x) by (apply Hle; by left).
      apply elem_of_cons in Hy as [->|[->|Hy]%elem_of_cons]; [lia..|].
      apply Hle. by right.
Qed.

Lemma minimum_spec (l : list Z) (m : Z) : minimum l = Ok m → is_minimum m l.
Proof.
  destruct l as [|c l]; [done|]. intros [= <-]. apply foldl_min_spec.
Qed.

(** Each sub-entity's computed concurrency is its batch size × its instance
    count × 2. *)
Lemma ensemble_subconfigs_concurrency (bounds : GlobalBounds)
    (vals : gmap nat (gmap string Z)) (key : nat) (steps : list string)
    (subs : list (ModelConfig * Z)) :
  get_next_ensemble_subconfigs bounds vals key steps = Ok subs →
  length subs = length steps ∧
  Forall (λ sub, sub.2 = maxBatchSize sub.1 * instanceGroup_count sub.1 * 2)
    subs.
Proof.
  revert key subs. induction steps as [|name steps IH]; intros key subs.
  - intros [= <-]. split; [done|constructor].
  - cbn [get_next_ensemble_subconfigs].
    unfold make_model_config, computed_concurrency.
    destruct (calculate_model_batch_size bounds vals key) as [bs|]; [|done].
    destruct (calculate_instance_count bounds vals key) as [ic|]; [|done].
    simpl.
    destruct (get_next_ensemble_subconfigs bounds vals (S key) steps)
      as [rest|] eqn:E; [|done].
    simpl. intros [= <-]. destruct (IH _ _ E) as [Hlen Hall].
    split; [simpl; lia|]. constructor; [reflexivity|done].
Qed.

(** C5: for a composite entity whose sub-entities resolve, the emitted
    ['concurrency-range'] is the minimum of the sub-entities' computed
    concurrencies (each batch size × instance count × 2) when neither a
    max-concurrency nor a min-concurrency override is configured, and the
    configured override verbatim otherwise. *)
Theorem composite_concurrency (bounds : GlobalBounds)
    (vals : gmap nat (gmap string Z)) (key : nat) (name : string)
    (steps : list string) (subs : list (ModelConfig * Z)) :
  steps ≠ [] →
  get_next_ensemble_subconfigs bounds vals key steps = Ok subs →
  Forall (λ sub, sub.2 = maxBatchSize sub.1 * instanceGroup_count sub.1 * 2)
    subs ∧
  ∃ rc c,
    get_next_ensemble_model_run_config bounds vals key name steps = Ok rc ∧
    ensemble_subconfigs rc = subs.*1 ∧
    perf_config rc !! "concurrency-range" = Some c ∧
    (run_config_search_max_concurrency bounds = None →
     run_config_search_min_concurrency bounds = None →
     is_minimum c (subs.*2)) ∧
    (∀ o, run_config_search_max_concurrency bounds = Some o → c = o) ∧
    (∀ o, run_config_search_max_concurrency bounds = None →
          run_config_search_min_concurrency bounds = Some o → c = o).
Proof.
  intros Hne Hsubs.
  destruct (ensemble_subconfigs_concurrency _ _ _ _ _ Hsubs) as [Hlen Hall].
  split; [done|].
  unfold get_next_ensemble_model_run_config, calculate_ensemble_concurrency.
  rewrite Hsubs. simpl.
  destruct (minimum (subs.*2)) as [lowest|] eqn:Hmin.
  - apply minimum_spec in Hmin. simpl.
    eexists _, _. split; [done|]. split; [done|]. split; [done|].
    unfold concurrency_override.
    split; [|split].
    + by intros -> ->.
    + by intros o ->.
    + by intros o -> ->.
  - destruct subs as [|sub subs]; [|done].
    destruct steps; [done|]. simpl in Hlen. lia.
Qed.

Lemma composite_concurrency_witness :
  ["fake_model_A"; "fake_model_B"] ≠ ([] : list string) ∧
  get_next_ensemble_subconfigs no_bounds ensemble_vals 0
    ["fake_model_A"; "fake_model_B"] = Ok ensemble_subs ∧
  Forall (λ sub, sub.2 = maxBatchSize sub.1 * instanceGroup_count sub.1 * 2)
    ensemble_subs ∧
  ∃ rc c,
    get_next_ensemble_model_run_config no_bounds ensemble_vals 0 "my-model"
      ["fake_model_A"; "fake_model_B"] = Ok rc ∧
    ensemble_subconfigs rc = ensemble_subs.*1 ∧
    perf_config rc !! "concurrency-range" = Some c ∧
    (run_config_search_max_concurrency no_bounds = None →
     run_config_search_min_concurrency no_bounds = None →
     is_minimum c (ensemble_subs.*2)) ∧
    (∀ o, run_config_search_max_concurrency no_bounds = Some o → c = o) ∧
    (∀ o, run_config_search_max_concurrency no_bounds = None →
          run_config_search_min_concurrency no_bounds = Some o → c = o).
Proof.
  assert (Hne : ["fake_model_A"; "fake_model_B"] ≠ ([] : list string))
    by discriminate.
  assert (Hsubs : get_next_ensemble_subconfigs no_bounds ensemble_vals 0
                    ["fake_model_A"; "fake_model_B"] = Ok ensemble_subs)
    by (vm_compute; reflexivity).
  split; [exact Hne|]. split; [exact Hsubs|].
  exact (composite_concurrency no_bounds ensemble_vals 0 "my-model"
           ["fake_model_A"; "fake_model_B"] ensemble_subs Hne Hsubs).
Defined.

End QuickSearchFacts.

(** ** [PerfLatencyAvg]: ordering and arithmetic *)

Module LatencyOrder.

Import Latency PyFacts.

Local Open Scope Q_scope.

Lemma lt_spec (a b : record) : __lt__ a b = true ↔ value b < value a.
Proof. apply Qltb_lt. Qed.

Lemma lt_false (a b : record) : __lt__ a b = false ↔ value a <= value b.
Proof. apply Qltb_ge. Qed.

Lemma eq_spec (a b : record) : __eq__ a b = true ↔ value a == value b.
Proof. apply Qeq_bool_iff. Qed.

Lemma eq_false (a b : record) : __eq__ a b = false ↔ ¬ value a == value b.
Proof.
  rewrite <- eq_spec. destruct (__eq__ a b); split; try done.
Qed.

(** Decide the three comparisons of two values at once. *)
Ltac compare_values a b :=
  let Hlt := fresh "Hlt" in
  let Hgt := fresh "Hgt" in
  let Heq := fresh "Heq" in
  (destruct (__lt__ a b) eqn:Hlt;
   [apply lt_spec in Hlt|apply lt_false in Hlt]);
  (destruct (__lt__ b a) eqn:Hgt;
   [apply lt_spec in Hgt|apply lt_false in Hgt]);
  (destruct (__eq__ a b) eqn:Heq;
   [apply eq_spec in Heq|apply eq_false in Heq]);
  try (exfalso; lra);
  try (exfalso; match goal with H : ¬ _ |- _ => apply H; lra end).



(** X2: of [a < b], [a == b] and [b < a] exactly one holds. *)
Theorem lt_eq_trichotomy (a b : record) :
  (__lt__ a b = true ∧ __eq__ a b = false ∧ __lt__ b a = false) ∨
  (__lt__ a b = false ∧ __eq__ a b = true ∧ __lt__ b a = false) ∨
  (__lt__ a b = false ∧ __eq__ a b = false ∧ __lt__ b a = true).
Proof.
  compare_values a b; auto 6.
Qed.

(** X3: the comparisons that [total_ordering] derives agree with [__lt__]
    and [__eq__] with the operands swapped: [a > b] is [b < a], [a >= b] is
    [b <= a], and [a <= b] is the negation of [a > b]. *)
Theorem total_ordering_consistent (a b : record) :
  __gt__ a b = __lt__ b a ∧
  __ge__ a b = __le__ b a ∧
  __le__ a b = negb (__gt__ a b) ∧
  __ne__ a b = (__lt__ a b || __lt__ b a).
Proof.
  assert (__eq__ b a = __eq__ a b) as Hsym.
  { destruct (__eq__ a b) eqn:E.
    - apply eq_spec. apply eq_spec in E. by symmetry.
    - apply eq_false. apply eq_false in E. intros H. apply E. by symmetry. }
  unfold __gt__, __ge__, __le__, __ne__. rewrite Hsym.
  compare_values a b; repeat split; reflexivity.
Qed.

(** X4: [==] on records is an equivalence, and equal records compare alike
    with every third record. *)
Theorem eq_equivalence (a b c : record) :
  __eq__ a a = true ∧
  (__eq__ a b = true → __eq__ b a = true) ∧
  (__eq__ a b = true → __eq__ b c = true → __eq__ a c = true) ∧
  (__eq__ a b = true →
   __lt__ a c = __lt__ b c ∧ __lt__ c a = __lt__ c b ∧
   __eq__ a c = __eq__ b c).
Proof.
  split; [|split; [|split]].
  - by apply eq_spec.
  - rewrite !eq_spec. intros H. by symmetry.
  - rewrite !eq_spec. intros H1 H2. by rewrite H1.
  - rewrite eq_spec. intros H.
    repeat split; apply eq_true_iff_eq.
    + rewrite !lt_spec. lra.
    + rewrite !lt_spec. lra.
    + rewrite !eq_spec. by rewrite H.
Qed.

Lemma eq_equivalence_witness :
  __eq__ (PerfLatencyAvg 5 1) (PerfLatencyAvg (10 # 2) 2) = true ∧
  __eq__ (PerfLatencyAvg (10 # 2) 2) (PerfLatencyAvg (15 # 3) 3) = true ∧
  __eq__ (PerfLatencyAvg (10 # 2) 2) (PerfLatencyAvg 5 1) = true ∧
  __eq__ (PerfLatencyAvg 5 1) (PerfLatencyAvg (15 # 3) 3) = true ∧
  __lt__ (PerfLatencyAvg 5 1) (PerfLatencyAvg (15 # 3) 3)
  = __lt__ (PerfLatencyAvg (10 # 2) 2) (PerfLatencyAvg (15 # 3) 3).
Proof.
  pose proof (eq_equivalence (PerfLatencyAvg 5 1) (PerfLatencyAvg (10 # 2) 2)
                (PerfLatencyAvg (15 # 3) 3)) as (_ & Hsym & Htrans & Hcong).
  split; [reflexivity|]. split; [reflexivity|].
  split; [exact (Hsym eq_refl)|].
  split; [exact (Htrans eq_refl eq_refl)|exact (proj1 (Hcong eq_refl))].
Defined.

(** X5: addition is commutative up to [==], and both [+] and [-] build a
    record of the receiver's tag whose timestamp is the default 0, whatever
    the operands' timestamps were. *)
Theorem add_commutative_fresh_timestamp (a b : record) :
  __eq__ (__add__ a b) (__add__ b a) = true ∧
  timestamp (__add__ a b) = 0 ∧ timestamp (__sub__ a b) = 0 ∧
  tag (__add__ a b) = tag a ∧ tag (__sub__ a b) = tag a.
Proof. split; [|by repeat split]. apply eq_spec. simpl. ring. Qed.

(** X6: the reversed subtraction measures improvement: [a - b] has a
    positive value exactly when [a > b] (a is the better record, with the
    lower latency), the value 0 exactly when [a == b], and swapping the
    operands negates the value. *)
Theorem sub_sign_is_order (a b : record) :
  (0 < value (__sub__ a b) ↔ __gt__ a b = true) ∧
  (value (__sub__ a b) == 0 ↔ __eq__ a b = true) ∧
  value (__sub__ a b) == - value (__sub__ b a).
Proof.
  split; [|split].
  - unfold __gt__, __ne__. simpl.
    compare_values a b; simpl; split; try done; intros; lra.
  - rewrite eq_spec. simpl. split; intros H; lra.
  - simpl. ring.
Qed.

(** X7: adding the same record on both sides never invents or reverses an
    order: if [a + c < b + c] then [a < b], and if [a == b] then
    [a + c == b + c]. *)
Theorem add_reflects_order (a b c : record) :
  (__lt__ (__add__ a c) (__add__ b c) = true → __lt__ a b = true) ∧
  (__eq__ a b = true → __eq__ (__add__ a c) (__add__ b c) = true).
Proof.
  rewrite !lt_spec, !eq_spec. simpl. split; intros H; lra.
Qed.

Lemma add_reflects_order_witness :
  __lt__ (__add__ (PerfLatencyAvg 30 0) (PerfLatencyAvg 5 0))
         (__add__ (PerfLatencyAvg 20 0) (PerfLatencyAvg 5 0)) = true ∧
  __eq__ (PerfLatencyAvg 20 1) (PerfLatencyAvg 20 2) = true ∧
  __lt__ (PerfLatencyAvg 30 0) (PerfLatencyAvg 20 0) = true ∧
  __eq__ (__add__ (PerfLatencyAvg 20 1) (PerfLatencyAvg 5 0))
         (__add__ (PerfLatencyAvg 20 2) (PerfLatencyAvg 5 0)) = true.
Proof.
  split; [reflexivity|]. split; [reflexivity|]. split.
  - exact (proj1 (add_reflects_order (PerfLatencyAvg 30 0)
                    (PerfLatencyAvg 20 0) (PerfLatencyAvg 5 0)) eq_refl).
  - exact (proj2 (add_reflects_order (PerfLatencyAvg 20 1)
                    (PerfLatencyAvg 20 2) (PerfLatencyAvg 5 0)) eq_refl).
Defined.

(** X8: [calculate_percentage_gain] raises exactly when the receiver's
    value is 0, the exception is then [ZeroDivisionError], and it returns
    otherwise. *)
Theorem percentage_gain_raises_iff (self other : record) :
  (calculate_percentage_gain self other = Raise ZeroDivisionError ↔
   value self == 0) ∧
  (returns (calculate_percentage_gain self other) ↔ ¬ value self == 0) ∧
  (∀ e, calculate_percentage_gain self other = Raise e →
        e = ZeroDivisionError).
Proof.
  unfold calculate_percentage_gain, truediv, returns.
  destruct (Qeq_bool (value self) 0) eqn:E; simpl.
  - apply Qeq_bool_iff in E. split; [done|]. split.
    + split; [by intros [? ?]|done].
    + by intros e [= <-].
  - apply Qeq_bool_neq in E. split; [done|]. split.
    + split; [done|]. intros _. by eexists.
    + done.
Qed.

(** X9: whenever the gain is returned, it is the value of the reversed
    difference [self - other] relative to the receiver's value, as a
    percentage, and it is 0 exactly when the two records are equal. *)
Theorem percentage_gain_of_sub (self other : record) (r : Q) :
  calculate_percentage_gain self other = Ok r →
  r == value (__sub__ self other) / value self * 100 ∧
  (r == 0 ↔ __eq__ self other = true).
Proof.
  unfold calculate_percentage_gain, truediv.
  destruct (Qeq_bool (value self) 0) eqn:E; [done|].
  apply Qeq_bool_neq in E. simpl. intros [= <-].
  split; [reflexivity|]. rewrite eq_spec.
  assert (Hd : (value other - value self) / value self * value self
               == value other - value self) by (field; done).
  generalize dependent ((value other - value self) / value self).
  intros d Hd. split; intros H.
  - assert (d == 0) as Hd0 by lra. rewrite Hd0 in Hd. lra.
  - assert (d * value self == 0) as Hz by lra.
    apply Qmult_integral in Hz as [Hz|Hz]; [lra|done].
Qed.

Lemma percentage_gain_of_sub_witness :
  calculate_percentage_gain (PerfLatencyAvg 5 0) (PerfLatencyAvg 10 0)
  = Ok ((10 - 5) / 5 * 100) ∧
  (10 - 5) / 5 * 100
  == value (__sub__ (PerfLatencyAvg 5 0) (PerfLatencyAvg 10 0)) / 5 * 100 ∧
  ((10 - 5) / 5 * 100 == 0 ↔
   __eq__ (PerfLatencyAvg 5 0) (PerfLatencyAvg 10 0) = true).
Proof.
  split; [reflexivity|].
  exact (percentage_gain_of_sub (PerfLatencyAvg 5 0) (PerfLatencyAvg 10 0)
           ((10 - 5) / 5 * 100) eq_refl).
Defined.

End LatencyOrder.

(** ** [ConstraintManager]: how the two checks end *)

Module ConstraintRunsFacts.

Import ConstraintManager ConstraintSpec ConstraintRuns PyFacts ConstraintFacts.

(** *** [satisfies_constraints] *)

Lemma check_metrics_ge (constraints : constraint_list) (i : nat)
    (model_metrics : list record) :
  length constraints ≤ i → model_metrics ≠ [] →
  check_metrics constraints i model_metrics = Raise IndexError.
Proof.
  destruct model_metrics as [|metric rest]; [done|]. intros Hi _.
  cbn [check_metrics]. unfold check_metric.
  by rewrite constraint_for_ge by done.
Qed.

Lemma populated_cons (constraints : constraint_list) (i : nat)
    (model_metrics : list record) (rest : measurement) :
  (∀ k mm, (model_metrics :: rest) !! k = Some mm → mm ≠ [] →
           i + k < length constraints) ↔
  (model_metrics ≠ [] → i < length constraints) ∧
  (∀ k mm, rest !! k = Some mm → mm ≠ [] → S i + k < length constraints).
Proof.
  split.
  - intros H. split.
    + intros Hne. specialize (H 0 model_metrics eq_refl Hne). lia.
    + intros k mm Hk Hne. specialize (H (S k) mm Hk Hne). lia.
  - intros [H0 Hr] [|k] mm Hk Hne; simpl in Hk.
    + injection Hk as <-. specialize (H0 Hne). lia.
    + specialize (Hr k mm Hk Hne). lia.
Qed.

Lemma check_models_true (constraints : constraint_list) (i : nat)
    (data : measurement) :
  check_models constraints i data = Ok true ↔
  (∀ k mm, data !! k = Some mm → mm ≠ [] → i + k < length constraints) ∧
  violated_from constraints i data = [].
Proof.
  revert i. induction data as [|mm rest IH]; intros i.
  - split; [|done]. intros _. split; [|done].
    intros k ? Hk. by rewrite lookup_nil in Hk.
  - cbn [check_models violated_from]. rewrite populated_cons, app_nil.
    pose proof (IH (S i)) as IHS.
    destruct (decide (mm = [])) as [->|Hne].
    + cbn. rewrite IHS. intuition congruence.
    + destruct (decide (i < length constraints)) as [Hi|Hi].
      * rewrite check_metrics_lt by done.
        destruct (decide (mm ≫= metric_violations constraints i = []))
          as [Hm|Hm].
        -- rewrite bool_decide_eq_true_2 by done. cbn. rewrite IHS.
           intuition congruence.
        -- rewrite bool_decide_eq_false_2 by done. cbn.
           split; [done|]. by intros [_ [? _]].
      * rewrite check_metrics_ge by (done || lia). cbn.
        split; [done|]. intros [[H _] _]. by specialize (H Hne).
Qed.

Lemma check_models_raise (constraints : constraint_list) (i : nat)
    (data : measurement) (e : exn) :
  check_models constraints i data = Raise e →
  e = IndexError ∧
  ∃ k mm, data !! k = Some mm ∧ mm ≠ [] ∧ length constraints ≤ i + k.
Proof.
  revert i. induction data as [|mm rest IH]; intros i; [done|].
  cbn [check_models].
  destruct (decide (mm = [])) as [->|Hne].
  - cbn. intros (-> & k & mm & Hk & Hne & Hle)%IH. split; [done|].
    exists (S k), mm. repeat split; [done..|lia].
  - destruct (decide (i < length constraints)) as [Hi|Hi].
    + rewrite check_metrics_lt by done. cbn.
      destruct (bool_decide _); [|done].
      intros (-> & k & mm' & Hk & Hne' & Hle)%IH. split; [done|].
      exists (S k), mm'. repeat split; [done..|lia].
    + rewrite check_metrics_ge by (done || lia). cbn. intros [= <-].
      split; [done|]. exists 0, mm. repeat split; [done..|lia].
Qed.

Lemma satisfies_true_cases (constraints : constraint_list)
    (data : measurement) :
  satisfies_constraints constraints data = Ok true ↔
  constraints = [] ∨
  populated_covered constraints data ∧ violated_bounds constraints data = [].
Proof.
  destruct constraints as [|c constraints]; [by split; [left|]|].
  unfold satisfies_constraints, violated_bounds, populated_covered.
  rewrite check_models_true. simpl. intuition congruence.
Qed.

(** X10: [satisfies_constraints] returns [True] exactly when the
    constraints list is empty, or every entity that has a metric has an
    entry in the list and every constrained metric is within its bounds. *)
Theorem satisfies_constraints_true_iff (constraints : constraint_list)
    (data : measurement) :
  satisfies_constraints constraints data = Ok true ↔
  constraints = [] ∨
  populated_covered constraints data ∧ all_within constraints data.
Proof. rewrite <- violated_bounds_nil. apply satisfies_true_cases. Qed.

(** X11: the only exception [satisfies_constraints] raises is
    [IndexError], and only on a non-empty constraints list that has no entry
    for an entity with at least one metric. *)
Theorem satisfies_constraints_raises (constraints : constraint_list)
    (data : measurement) (e : exn) :
  satisfies_constraints constraints data = Raise e →
  e = IndexError ∧ constraints ≠ [] ∧
  ∃ i mm, data !! i = Some mm ∧ mm ≠ [] ∧ length constraints ≤ i.
Proof.
  destruct constraints as [|c constraints]; [done|].
  unfold satisfies_constraints.
  intros (-> & k & mm & H)%check_models_raise. split; [done|].
  split; [done|]. by exists k, mm.
Qed.

Lemma satisfies_constraints_raises_witness :
  satisfies_constraints (Samples.latency_max 100)
    Samples.two_latency_measured = Raise IndexError ∧
  IndexError = IndexError ∧ Samples.latency_max 100 ≠ [] ∧
  ∃ i mm, Samples.two_latency_measured !! i = Some mm ∧ mm ≠ [] ∧
          length (Samples.latency_max 100) ≤ i.
Proof.
  split; [reflexivity|].
  exact (satisfies_constraints_raises (Samples.latency_max 100)
           Samples.two_latency_measured IndexError eq_refl).
Defined.

(** *** [constraint_failure_percentage] *)

Lemma add_metric_ge (constraints : constraint_list) (i : nat)
    (metric : record) (fp : Q) :
  length constraints ≤ i →
  add_metric constraints i metric fp = Raise IndexError.
Proof.
  intros Hi. unfold add_metric. by rewrite constraint_for_ge by done.
Qed.

Lemma add_metric_raise_lt (constraints : constraint_list) (i : nat)
    (metric : record) (fp : Q) (e : exn) :
  i < length constraints →
  add_metric constraints i metric fp = Raise e → e = ZeroDivisionError.
Proof.
  intros Hi. unfold add_metric. rewrite constraint_for_lt by done. cbn.
  destruct (declared constraints i metric) as [c|]; [|done].
  unfold truediv.
  destruct (c !! "min") as [mn|], (c !! "max") as [mx|]; cbn;
    repeat (match goal with
            | |- context [if ?b then _ else _] => destruct b; cbn
            end);
    by intros [= <-].
Qed.

Lemma add_metrics_ge (constraints : constraint_list) (i : nat)
    (model_metrics : list record) (fp : Q) :
  length constraints ≤ i → model_metrics ≠ [] →
  add_metrics constraints i model_metrics fp = Raise IndexError.
Proof.
  destruct model_metrics as [|metric rest]; [done|]. intros Hi _.
  cbn [add_metrics]. by rewrite add_metric_ge by done.
Qed.

Lemma add_metrics_raise_lt (constraints : constraint_list) (i : nat)
    (model_metrics : list record) (fp : Q) (e : exn) :
  i < length constraints →
  add_metrics constraints i model_metrics fp = Raise e →
  e = ZeroDivisionError.
Proof.
  intros Hi. revert fp.
  induction model_metrics as [|metric rest IH]; intros fp; [done|].
  cbn [add_metrics].
  destruct (add_metric constraints i metric fp) as [v|e'] eqn:E; cbn.
  - apply IH.
  - intros [= <-]. by eapply add_metric_raise_lt.
Qed.

(** How the inner loop ends on one model. *)
Lemma add_metrics_cases (constraints : constraint_list) (i : nat)
    (model_metrics : list record) (fp : Q) :
  (model_metrics ≠ [] ∧ length constraints ≤ i ∧
   add_metrics constraints i model_metrics fp = Raise IndexError) ∨
  ((model_metrics = [] ∨ i < length constraints) ∧
   ¬ Forall nonzero_limit
       (model_metrics ≫= metric_violations constraints i) ∧
   add_metrics constraints i model_metrics fp = Raise ZeroDivisionError) ∨
  ((model_metrics = [] ∨ i < length constraints) ∧
   Forall nonzero_limit (model_metrics ≫= metric_violations constraints i) ∧
   ∃ v, add_metrics constraints i model_metrics fp = Ok v ∧
        (v == fp + Qsum (relative_overage
                           <$> (model_metrics
                                  ≫= metric_violations constraints i)))%Q).
Proof.
  destruct (decide (model_metrics = [])) as [->|Hne].
  - right; right. split; [by left|]. split; [constructor|].
    exists fp. split; [done|]. change (fp == fp + 0)%Q. ring.
  - destruct (decide (i < length constraints)) as [Hi|Hi].
    + destruct (add_metrics constraints i model_metrics fp) as [v|e] eqn:E.
      * apply add_metrics_ok in E as [Hnz E]. right; right.
        split; [by right|]. split; [done|]. by exists v.
      * pose proof (add_metrics_raise_lt _ _ _ _ _ Hi E) as ->.
        right; left. split; [by right|]. split; [|done].
        intros Hnz.
        destruct (add_metrics_lt constraints i model_metrics fp Hi Hnz)
          as (v & Hv & _).
        by rewrite Hv in E.
    + left. split; [done|]. split; [lia|].
      apply add_metrics_ge; [lia|done].
Qed.

Lemma add_models_returns (constraints : constraint_list) (i : nat)
    (data : measurement) (fp : Q) :
  returns (add_models constraints i data fp) ↔
  (∀ k mm, data !! k = Some mm → mm ≠ [] → i + k < length constraints) ∧
  Forall nonzero_limit (violated_from constraints i data).
Proof.
  revert i fp. induction data as [|mm rest IH]; intros i fp.
  - split; [|by eexists]. intros _. split; [|constructor].
    intros k ? Hk. by rewrite lookup_nil in Hk.
  - cbn [add_models violated_from]. rewrite populated_cons, Forall_app.
    destruct (add_metrics_cases constraints i mm fp)
      as [(Hne & Hi & ->)|[(Hc & Hnz & ->)|(Hc & Hnz & v & -> & _)]]; cbn.
    + split; [by intros [? ?]|]. intros [[H _] _]. specialize (H Hne). lia.
    + split; [by intros [? ?]|]. by intros [_ [? _]].
    + rewrite (IH (S i) v). split.
      * intros [? ?]. repeat split; try done.
        intros Hne. by destruct Hc.
      * by intros [[_ ?] [_ ?]].
Qed.

Lemma add_models_raise (constraints : constraint_list) (i : nat)
    (data : measurement) (fp : Q) (e : exn) :
  add_models constraints i data fp = Raise e →
  e = IndexError ∨ e = ZeroDivisionError.
Proof.
  revert i fp. induction data as [|mm rest IH]; intros i fp; [done|].
  cbn [add_models].
  destruct (add_metrics_cases constraints i mm fp)
    as [(_ & _ & ->)|[(_ & _ & ->)|(_ & _ & v & -> & _)]]; cbn.
  - intros [= <-]. by left.
  - intros [= <-]. by right.
  - apply IH.
Qed.

Lemma failure_percentage_returns_cases (constraints : constraint_list)
    (data : measurement) :
  returns (constraint_failure_percentage constraints data) ↔
  constraints = [] ∨
  populated_covered constraints data ∧
  Forall nonzero_limit (violated_bounds constraints data).
Proof.
  unfold constraint_failure_percentage, violated_bounds, populated_covered.
  destruct constraints as [|c constraints].
  - split; [by left|]. intros _. by eexists.
  - pose proof (add_models_returns (c :: constraints) 0 data 0%Q) as H.
    simpl in H. rewrite <- H. clear H.
    destruct (add_models (c :: constraints) 0 data 0%Q) as [v|e]; cbn.
    + split; [intros _; right; by eexists|intros _; by eexists].
    + split; [by intros [? ?]|]. by intros [?|[? ?]].
Qed.

(** X12: [constraint_failure_percentage] returns a number exactly when the
    constraints list is empty, or every entity that has a metric has an
    entry in the list and no violated bound is zero; otherwise it raises
    [IndexError] or [ZeroDivisionError], and nothing else. *)
Theorem failure_percentage_returns_iff (constraints : constraint_list)
    (data : measurement) :
  (returns (constraint_failure_percentage constraints data) ↔
   constraints = [] ∨
   populated_covered constraints data ∧
   Forall nonzero_limit (violated_bounds constraints data)) ∧
  (∀ e, constraint_failure_percentage constraints data = Raise e →
        e = IndexError ∨ e = ZeroDivisionError).
Proof.
  split; [apply failure_percentage_returns_cases|].
  intros e. unfold constraint_failure_percentage.
  destruct constraints as [|c constraints]; [done|].
  destruct (add_models (c :: constraints) 0 data 0%Q) as [v|e'] eqn:E;
    [done|].
  cbn. intros [= <-]. by eapply add_models_raise.
Qed.

(** X13: a measurement that satisfies the constraints has the failure
    percentage 0: whenever [satisfies_constraints] returns [True],
    [constraint_failure_percentage] returns, and returns 0. *)
Theorem satisfied_has_zero_failure_percentage
    (constraints : constraint_list) (data : measurement) :
  satisfies_constraints constraints data = Ok true →
  ∃ v, constraint_failure_percentage constraints data = Ok v ∧ (v == 0)%Q.
Proof.
  intros H%satisfies_true_cases.
  assert (violated_bounds constraints data = []) as Hn.
  { destruct H as [->|[_ ?]]; [apply violated_from_no_constraints|done]. }
  assert (returns (constraint_failure_percentage constraints data))
    as [v Hv].
  { apply failure_percentage_returns_cases.
    destruct H as [?|[? _]]; [by left|right]. split; [done|].
    rewrite Hn. constructor. }
  exists v. split; [done|].
  apply constraint_failure_percentage_ok in Hv as [_ ->].
  unfold infeasibilityScore. rewrite Hn. change (100 * 0 == 0)%Q. ring.
Qed.

Lemma satisfied_has_zero_failure_percentage_witness :
  satisfies_constraints (Samples.latency_max 200)
    (Samples.latency_measured 150) = Ok true ∧
  ∃ v, constraint_failure_percentage (Samples.latency_max 200)
         (Samples.latency_measured 150) = Ok v ∧ (v == 0)%Q.
Proof.
  split; [reflexivity|].
  exact (satisfied_has_zero_failure_percentage (Samples.latency_max 200)
           (Samples.latency_measured 150) eq_refl).
Defined.

(** *** The order of the metrics of a model *)

Lemma violations_perm (constraints : constraint_list) (i : nat)
    (mm mm' : list record) :
  mm ≡ₚ mm' →
  mm ≫= metric_violations constraints i
  ≡ₚ mm' ≫= metric_violations constraints i.
Proof.
  induction 1 as [|x l l' _ IH|x y l|l1 l2 l3 _ IH1 _ IH2].
  - done.
  - rewrite !bind_cons. by rewrite IH.
  - rewrite !bind_cons, !(assoc (++)).
    by rewrite (comm (++) (metric_violations constraints i y)).
  - by rewrite IH1.
Qed.

Lemma check_metrics_perm (constraints : constraint_list) (i : nat)
    (mm mm' : list record) :
  mm ≡ₚ mm' →
  check_metrics constraints i mm = check_metrics constraints i mm'.
Proof.
  intros Hp. destruct (decide (i < length constraints)) as [Hi|Hi].
  - rewrite !check_metrics_lt by done. f_equal. apply bool_decide_ext.
    pose proof (violations_perm constraints i _ _ Hp) as Hv.
    split; intros H; rewrite H in Hv.
    + by apply Permutation_nil_l in Hv.
    + by apply Permutation_nil_r in Hv.
  - destruct (decide (mm = [])) as [->|Hne].
    + by apply Permutation_nil_l in Hp as ->.
    + rewrite !check_metrics_ge; [done|lia| |lia|done].
      intros ->. by apply Permutation_nil_r in Hp.
Qed.

Lemma check_models_perm (constraints : constraint_list) (i : nat)
    (data data' : measurement) :
  Forall2 (≡ₚ) data data' →
  check_models constraints i data = check_models constraints i data'.
Proof.
  intros H. revert i. induction H as [|mm mm' rest rest' Hp _ IH]; intros i;
    [done|].
  cbn [check_models]. rewrite (check_metrics_perm _ _ _ _ Hp).
  destruct (check_metrics constraints i mm') as [[|]|]; cbn; [apply IH|done..].
Qed.

Lemma add_metrics_perm (constraints : constraint_list) (i : nat)
    (mm mm' : list record) (fp fp' : Q) :
  mm ≡ₚ mm' →
  same_ending (add_metrics constraints i mm fp)
              (add_metrics constraints i mm' fp').
Proof.
  intros Hp.
  pose proof (violations_perm constraints i _ _ Hp) as Hv.
  assert (mm = [] ↔ mm' = []) as Hnil.
  { split; intros ->; [by apply Permutation_nil_l in Hp
                      |by apply Permutation_nil_r in Hp]. }
  destruct (add_metrics_cases constraints i mm fp)
    as [(Hne & Hi & ->)|[(Hc & Hnz & ->)|(Hc & Hnz & v & -> & E)]];
    destruct (add_metrics_cases constraints i mm' fp')
      as [(Hne' & Hi' & ->)|[(Hc' & Hnz' & ->)|(Hc' & Hnz' & v' & -> & E')]];
    cbn; try done.
  - destruct Hc' as [Hc'|Hc']; [by apply Hnil in Hc'|lia].
  - destruct Hc' as [Hc'|Hc']; [by apply Hnil in Hc'|lia].
  - destruct Hc as [Hc|Hc]; [by apply Hnil in Hc|lia].
  - destruct Hnz. by rewrite Hv.
  - destruct Hc as [Hc|Hc]; [by apply Hnil in Hc|lia].
  - destruct Hnz'. by rewrite <- Hv.
Qed.

Lemma add_models_perm (constraints : constraint_list) (i : nat)
    (data data' : measurement) (fp fp' : Q) :
  Forall2 (≡ₚ) data data' →
  same_ending (add_models constraints i data fp)
              (add_models constraints i data' fp').
Proof.
  intros H. revert i fp fp'.
  induction H as [|mm mm' rest rest' Hp _ IH]; intros i fp fp'; [done|].
  cbn [add_models].
  pose proof (add_metrics_perm constraints i mm mm' fp fp' Hp) as Hm.
  destruct (add_metrics constraints i mm fp) as [v|e],
           (add_metrics constraints i mm' fp') as [v'|e']; cbn in *;
    first [done|apply IH].
Qed.

(** X14: the order of the metrics within each model does not decide how
    the checks end: reordering them leaves the result of
    [satisfies_constraints] unchanged (exception included), and
    [constraint_failure_percentage] still returns a number, or still raises
    the same exception. *)
Theorem metric_order_irrelevant (constraints : constraint_list)
    (data data' : measurement) :
  Forall2 (≡ₚ) data data' →
  satisfies_constraints constraints data
  = satisfies_constraints constraints data' ∧
  same_ending (constraint_failure_percentage constraints data)
              (constraint_failure_percentage constraints data').
Proof.
  intros H. split.
  - unfold satisfies_constraints. destruct constraints; [done|].
    by apply check_models_perm.
  - unfold constraint_failure_percentage.
    destruct constraints as [|c constraints]; [done|].
    pose proof (add_models_perm (c :: constraints) 0 data data' 0%Q 0%Q H)
      as Hm.
    destruct (add_models (c :: constraints) 0 data 0%Q) as [v|e],
             (add_models (c :: constraints) 0 data' 0%Q) as [v'|e'];
      cbn in *; done.
Qed.

Lemma metric_order_irrelevant_witness :
  Forall2 (≡ₚ) (Samples.latency_pair 150 50) (Samples.latency_pair 50 150) ∧
  satisfies_constraints (Samples.latency_max 100)
    (Samples.latency_pair 150 50)
  = satisfies_constraints (Samples.latency_max 100)
      (Samples.latency_pair 50 150) ∧
  same_ending
    (constraint_failure_percentage (Samples.latency_max 100)
       (Samples.latency_pair 150 50))
    (constraint_failure_percentage (Samples.latency_max 100)
       (Samples.latency_pair 50 150)).
Proof.
  assert (Forall2 (≡ₚ) (Samples.latency_pair 150 50)
            (Samples.latency_pair 50 150)) as Hp.
  { constructor; [apply perm_swap|constructor]. }
  split; [exact Hp|].
  exact (metric_order_irrelevant (Samples.latency_max 100) _ _ Hp).
Defined.

(** *** Contradictory bounds *)

(** X15: a constrained metric whose declared ['max'] is below its declared
    ['min'] can never pass: [satisfies_constraints] does not return
    [True]. *)
Theorem contradictory_bounds_never_satisfied (constraints : constraint_list)
    (data : measurement) (i : nat) (model_metrics : list record)
    (metric : record) (constraint : gmap string Q) (mn mx : Q) :
  data !! i = Some model_metrics →
  metric ∈ model_metrics →
  declared constraints i metric = Some constraint →
  constraint !! "min" = Some mn →
  constraint !! "max" = Some mx →
  (mx < mn)%Q →
  satisfies_constraints constraints data ≠ Ok true.
Proof.
  intros Hd Hin Hc Hmn Hmx Hlt H%satisfies_constraints_ok.
  symmetry in H. apply bool_decide_eq_true, violated_bounds_nil in H.
  destruct (H i model_metrics metric constraint Hd Hin Hc) as [Hlo Hhi].
  specialize (Hlo _ Hmn). specialize (Hhi _ Hmx). lra.
Qed.

Lemma contradictory_bounds_never_satisfied_witness :
  Samples.latency_measured 7 !! 0 = Some [Latency.PerfLatencyAvg 7 0] ∧
  Latency.PerfLatencyAvg 7 0 ∈ [Latency.PerfLatencyAvg 7 0] ∧
  declared (Samples.latency_min_max 10 5) 0 (Latency.PerfLatencyAvg 7 0)
  = Some {[ "min" := 10%Q; "max" := 5%Q ]} ∧
  ({[ "min" := 10%Q; "max" := 5%Q ]} : gmap string Q) !! "min" = Some 10%Q ∧
  ({[ "min" := 10%Q; "max" := 5%Q ]} : gmap string Q) !! "max" = Some 5%Q ∧
  (5 < 10)%Q ∧
  satisfies_constraints (Samples.latency_min_max 10 5)
    (Samples.latency_measured 7) ≠ Ok true.
Proof.
  assert (Latency.PerfLatencyAvg 7 0 ∈ [Latency.PerfLatencyAvg 7 0]) as Hin
    by (by left).
  assert (5 < 10)%Q as Hlt by reflexivity.
  split; [reflexivity|]. split; [exact Hin|]. split; [reflexivity|].
  split; [reflexivity|]. split; [reflexivity|]. split; [exact Hlt|].
  exact (contradictory_bounds_never_satisfied
           (Samples.latency_min_max 10 5) (Samples.latency_measured 7) 0
           [Latency.PerfLatencyAvg 7 0] (Latency.PerfLatencyAvg 7 0)
           {[ "min" := 10%Q; "max" := 5%Q ]} 10 5
           eq_refl Hin eq_refl eq_refl eq_refl Hlt).
Defined.

(** *** Each model is judged on its own *)

Lemma declared_app_l (cs1 cs2 : constraint_list) (i : nat)
    (metric : record) :
  i < length cs1 →
  declared (cs1 ++ cs2) i metric = declared cs1 i metric.
Proof. intros Hi. unfold declared. by rewrite lookup_app_l. Qed.

Lemma declared_app_r (cs1 cs2 : constraint_list) (j : nat)
    (metric : record) :
  declared (cs1 ++ cs2) (length cs1 + j) metric = declared cs2 j metric.
Proof.
  unfold declared. rewrite lookup_app_r by lia.
  by replace (length cs1 + j - length cs1) with j by lia.
Qed.

Lemma bind_ext_in {A B} (f g : A → list B) (l : list A) :
  (∀ x, x ∈ l → f x = g x) → l ≫= f = l ≫= g.
Proof.
  induction l as [|x l IH]; intros H; [done|].
  rewrite !bind_cons, (H x), IH; [done| |by left].
  intros y Hy. apply H. by right.
Qed.

Lemma violated_from_app_l (cs1 cs2 : constraint_list) (i : nat)
    (data : measurement) :
  i + length data ≤ length cs1 →
  violated_from (cs1 ++ cs2) i data = violated_from cs1 i data.
Proof.
  revert i. induction data as [|mm rest IH]; intros i Hi; [done|].
  cbn [violated_from length] in *. rewrite IH by lia. f_equal.
  apply bind_ext_in. intros m _. unfold metric_violations.
  by rewrite declared_app_l by lia.
Qed.

Lemma violated_from_app_r (cs1 cs2 : constraint_list) (j : nat)
    (data : measurement) :
  violated_from (cs1 ++ cs2) (length cs1 + j) data
  = violated_from cs2 j data.
Proof.
  revert j. induction data as [|mm rest IH]; intros j; [done|].
  cbn [violated_from].
  replace (S (length cs1 + j)) with (length cs1 + S j) by lia.
  rewrite IH. f_equal.
  apply bind_ext_in. intros m _. unfold metric_violations.
  by rewrite declared_app_r.
Qed.

Lemma violated_from_data_app (constraints : constraint_list) (i : nat)
    (d1 d2 : measurement) :
  violated_from constraints i (d1 ++ d2)
  = violated_from constraints i d1
    ++ violated_from constraints (i + length d1) d2.
Proof.
  revert i. induction d1 as [|mm rest IH]; intros i.
  - simpl. by rewrite Nat.add_0_r.
  - cbn [violated_from app length]. rewrite IH, <- (assoc (++)).
    by replace (S i + length rest) with (i + S (length rest)) by lia.
Qed.

Lemma violated_bounds_app (cs1 cs2 : constraint_list) (d1 d2 : measurement) :
  length cs1 = length d1 →
  violated_bounds (cs1 ++ cs2) (d1 ++ d2)
  = violated_bounds cs1 d1 ++ violated_bounds cs2 d2.
Proof.
  intros Hlen. unfold violated_bounds.
  rewrite violated_from_data_app, violated_from_app_l by (simpl; lia).
  f_equal. simpl. rewrite <- Hlen.
  replace (length cs1) with (length cs1 + 0) at 1 by lia.
  apply violated_from_app_r.
Qed.

(** X16: each model is checked against its own constraints: for
    constraints and measurements of a first group of models (one entry per
    model) followed by those of a second group, [satisfies_constraints] on
    the whole is the conjunction of its results on the two groups. *)
Theorem satisfies_constraints_app (cs1 cs2 : constraint_list)
    (d1 d2 : measurement) :
  length cs1 = length d1 →
  length d2 ≤ length cs2 →
  ∃ b1 b2,
    satisfies_constraints cs1 d1 = Ok b1 ∧
    satisfies_constraints cs2 d2 = Ok b2 ∧
    satisfies_constraints (cs1 ++ cs2) (d1 ++ d2) = Ok (b1 && b2).
Proof.
  intros H1 H2.
  exists (bool_decide (violated_bounds cs1 d1 = [])),
         (bool_decide (violated_bounds cs2 d2 = [])).
  rewrite !satisfies_constraints_covered;
    [|right; rewrite !length_app; lia|by right|right; lia].
  split; [done|]. split; [done|]. f_equal.
  rewrite violated_bounds_app by done.
  apply eq_true_iff_eq.
  rewrite andb_true_iff, !bool_decide_eq_true. apply app_nil.
Qed.

Lemma satisfies_constraints_app_witness :
  length (Samples.latency_max 5) = length (Samples.latency_measured 10) ∧
  length (Samples.latency_measured 0) ≤ length (Samples.latency_max (-5)) ∧
  ∃ b1 b2,
    satisfies_constraints (Samples.latency_max 5)
      (Samples.latency_measured 10) = Ok b1 ∧
    satisfies_constraints (Samples.latency_max (-5))
      (Samples.latency_measured 0) = Ok b2 ∧
    satisfies_constraints (Samples.latency_max 5 ++ Samples.latency_max (-5))
      (Samples.latency_measured 10 ++ Samples.latency_measured 0)
    = Ok (b1 && b2).
Proof.
  split; [reflexivity|]. split; [simpl; lia|].
  apply (satisfies_constraints_app (Samples.latency_max 5)
           (Samples.latency_max (-5)) (Samples.latency_measured 10)
           (Samples.latency_measured 0)); [reflexivity|simpl; lia].
Defined.

Lemma add_metric_no_violation (constraints : constraint_list) (i : nat)
    (metric : record) (fp : Q) :
  i < length constraints →
  metric_violations constraints i metric = [] →
  add_metric constraints i metric fp = Ok fp.
Proof.
  intros Hi. unfold add_metric, metric_violations.
  rewrite constraint_for_lt by done. cbn.
  destruct (declared constraints i metric) as [c|]; [|done].
  unfold violations_of.
  destruct (c !! "min") as [mn|], (c !! "max") as [mx|]; cbn;
    repeat (match goal with
            | |- context [Qltb ?x ?y] => destruct (Qltb x y); cbn
            end);
    done.
Qed.

Lemma add_models_no_violation (constraints : constraint_list) (i : nat)
    (data : measurement) (fp : Q) :
  i + length data ≤ length constraints →
  violated_from constraints i data = [] →
  add_models constraints i data fp = Ok fp.
Proof.
  revert i. induction data as [|mm rest IH]; intros i Hi; [done|].
  cbn [add_models violated_from length] in *.
  intros [Hm Hr]%app_nil.
  assert (add_metrics constraints i mm fp = Ok fp) as ->.
  { clear IH Hr. induction mm as [|m mm IHm]; [done|].
    rewrite bind_cons in Hm. apply app_nil in Hm as [H1 H2].
    cbn [add_metrics]. rewrite add_metric_no_violation by (done || lia).
    by apply IHm. }
  cbn. apply IH; [lia|done].
Qed.

Lemma add_models_data_app (constraints : constraint_list) (i : nat)
    (d1 d2 : measurement) (fp : Q) :
  add_models constraints i (d1 ++ d2) fp
  = add_models constraints i d1 fp
      ≫= add_models constraints (i + length d1) d2.
Proof.
  revert i fp. induction d1 as [|mm rest IH]; intros i fp.
  - cbn. by rewrite Nat.add_0_r.
  - cbn [add_models app length].
    destruct (add_metrics constraints i mm fp) as [v|e]; [|done]. cbn.
    rewrite IH. by replace (S i + length rest) with (i + S (length rest))
      by lia.
Qed.

(** The inner loop reads the constraints list at its own position only. *)
Lemma add_models_ext (cs cs' : constraint_list) (i i' : nat)
    (data : measurement) (fp : Q) :
  (∀ k, k < length data → cs !! (i + k) = cs' !! (i' + k)) →
  add_models cs i data fp = add_models cs' i' data fp.
Proof.
  revert i i' fp. induction data as [|mm rest IH]; intros i i' fp H; [done|].
  cbn [add_models].
  assert (cs !! i = cs' !! i') as H0.
  { specialize (H 0). rewrite !Nat.add_0_r in H. apply H. simpl. lia. }
  assert (∀ fp, add_metrics cs i mm fp = add_metrics cs' i' mm fp) as ->.
  { clear -H0. induction mm as [|m mm IHm]; intros fp'; [done|].
    cbn [add_metrics].
    assert (add_metric cs i m fp' = add_metric cs' i' m fp') as ->.
    { unfold add_metric, constraint_for, getitem. by rewrite H0. }
    destruct (add_metric cs' i' m fp'); [apply IHm|done]. }
  destruct (add_metrics cs' i' mm fp); [|done]. cbn.
  apply IH. intros k Hk. specialize (H (S k)).
  replace (S i + k) with (i + S k) by lia.
  replace (S i' + k) with (i' + S k) by lia.
  apply H. simpl. lia.
Qed.

Lemma failure_percentage_returns_covered (constraints : constraint_list)
    (data : measurement) :
  length data ≤ length constraints →
  returns (constraint_failure_percentage constraints data) ↔
  Forall nonzero_limit (violated_bounds constraints data).
Proof.
  intros Hlen. rewrite failure_percentage_returns_cases. split.
  - intros [->|[_ ?]]; [|done]. unfold violated_bounds.
    rewrite violated_from_no_constraints. constructor.
  - intros Hnz. right. split; [|done].
    intros i mm Hi%lookup_lt_Some _. lia.
Qed.

(** X17: for the constraints and measurements of a first group of models
    (one entry per model) followed by those of a second group (at least one
    entry per model), [constraint_failure_percentage] returns on the whole
    exactly when it returns on both groups, and a group without a violated
    bound contributes nothing: the result on the whole is then the result on
    the other group. *)
Theorem failure_percentage_of_groups (cs1 cs2 : constraint_list)
    (d1 d2 : measurement) :
  length cs1 = length d1 →
  length d2 ≤ length cs2 →
  (returns (constraint_failure_percentage (cs1 ++ cs2) (d1 ++ d2)) ↔
   returns (constraint_failure_percentage cs1 d1) ∧
   returns (constraint_failure_percentage cs2 d2)) ∧
  (violated_bounds cs1 d1 = [] →
   constraint_failure_percentage (cs1 ++ cs2) (d1 ++ d2)
   = constraint_failure_percentage cs2 d2) ∧
  (violated_bounds cs2 d2 = [] →
   constraint_failure_percentage (cs1 ++ cs2) (d1 ++ d2)
   = constraint_failure_percentage cs1 d1).
Proof.
  intros H1 H2.
  assert (∀ fp, add_models (cs1 ++ cs2) 0 d1 fp = add_models cs1 0 d1 fp)
    as Hl.
  { intros fp. apply add_models_ext. intros k Hk. simpl.
    apply lookup_app_l. lia. }
  assert (∀ fp, add_models (cs1 ++ cs2) (0 + length d1) d2 fp
                = add_models cs2 0 d2 fp) as Hr.
  { intros fp. apply add_models_ext. intros k Hk. simpl.
    rewrite lookup_app_r by lia. f_equal. lia. }
  split; [|split].
  - rewrite !failure_percentage_returns_covered
      by (rewrite ?length_app; lia).
    rewrite violated_bounds_app by done. apply Forall_app.
  - intros Hn. unfold constraint_failure_percentage.
    assert (add_models cs1 0 d1 0%Q = Ok 0%Q) as Hd1
      by (apply add_models_no_violation; [simpl; lia|done]).
    destruct cs1 as [|c1 cs1'].
    + destruct d1; [|done]. simpl app. destruct cs2; [|done].
      by destruct d2; [|simpl in H2; lia].
    + change ((c1 :: cs1') ++ cs2) with (c1 :: (cs1' ++ cs2)).
      change (c1 :: (cs1' ++ cs2)) with ((c1 :: cs1') ++ cs2).
      rewrite add_models_data_app, Hl, Hd1. cbn [mbind result_bind].
      rewrite Hr. destruct cs2 as [|c2 cs2']; [|done].
      by destruct d2; [|simpl in H2; lia].
  - intros Hn. unfold constraint_failure_percentage.
    assert (∀ fp, add_models cs2 0 d2 fp = Ok fp) as Hd2
      by (intros fp; apply add_models_no_violation; [simpl; lia|done]).
    destruct cs1 as [|c1 cs1'].
    + destruct d1; [|done]. simpl app. destruct cs2 as [|c2 cs2']; [done|].
      by rewrite Hd2.
    + change ((c1 :: cs1') ++ cs2) with (c1 :: (cs1' ++ cs2)).
      change (c1 :: (cs1' ++ cs2)) with ((c1 :: cs1') ++ cs2).
      rewrite add_models_data_app, Hl.
      destruct (add_models (c1 :: cs1') 0 d1 0%Q) as [v|e]; [|done].
      cbn [mbind result_bind]. by rewrite Hr, Hd2.
Qed.

Lemma failure_percentage_of_groups_witness :
  length (Samples.latency_max 200) = length (Samples.latency_measured 150) ∧
  length (Samples.latency_measured 150) ≤ length (Samples.latency_max 100) ∧
  violated_bounds (Samples.latency_max 200) (Samples.latency_measured 150)
  = [] ∧
  constraint_failure_percentage Samples.pass_then_fail_max
    Samples.pass_then_fail_measured
  = constraint_failure_percentage (Samples.latency_max 100)
      (Samples.latency_measured 150).
Proof.
  assert (length (Samples.latency_measured 150)
          ≤ length (Samples.latency_max 100)) as H2 by (simpl; lia).
  split; [reflexivity|]. split; [exact H2|]. split; [reflexivity|].
  exact (proj1 (proj2 (failure_percentage_of_groups
                         (Samples.latency_max 200) (Samples.latency_max 100)
                         (Samples.latency_measured 150)
                         (Samples.latency_measured 150) eq_refl H2))
           eq_refl).
Defined.

(** *** A model without constraints *)

Lemma check_models_shift (c : option constraint_dict)
    (constraints : constraint_list) (i : nat) (data : measurement) :
  check_models (c :: constraints) (S i) data = check_models constraints i data.
Proof.
  revert i. induction data as [|mm rest IH]; intros i; [done|].
  cbn [check_models]. rewrite IH.
  assert (check_metrics (c :: constraints) (S i) mm
          = check_metrics constraints i mm) as ->; [|done].
  induction mm as [|m mm IHm]; [done|].
  cbn [check_metrics]. by rewrite IHm.
Qed.

Lemma add_models_shift (c : option constraint_dict)
    (constraints : constraint_list) (i : nat) (data : measurement) (fp : Q) :
  add_models (c :: constraints) (S i) data fp
  = add_models constraints i data fp.
Proof.
  revert i fp. induction data as [|mm rest IH]; intros i fp; [done|].
  cbn [add_models].
  assert (∀ fp, add_metrics (c :: constraints) (S i) mm fp
                = add_metrics constraints i mm fp) as ->.
  { induction mm as [|m mm IHm]; intros fp'; [done|].
    cbn [add_metrics].
    change (add_metric (c :: constraints) (S i) m fp')
      with (add_metric constraints i m fp').
    destruct (add_metric constraints i m fp'); [apply IHm|done]. }
  destruct (add_metrics constraints i mm fp); [apply IH|done].
Qed.

(** X20: a model none of whose metrics is constrained (its entry is [None],
    an empty dict, or a dict without the tags of its metrics) is ignored:
    putting it in front of the other models changes neither the result of
    [satisfies_constraints] nor that of [constraint_failure_percentage],
    exceptions included. *)
Theorem unconstrained_model_ignored (c : option constraint_dict)
    (constraints : constraint_list) (model_metrics : list record)
    (data : measurement) :
  constraints ≠ [] →
  (∀ metric d, metric ∈ model_metrics → c = Some d → d !! tag metric = None) →
  satisfies_constraints (c :: constraints) (model_metrics :: data)
  = satisfies_constraints constraints data ∧
  constraint_failure_percentage (c :: constraints) (model_metrics :: data)
  = constraint_failure_percentage constraints data.
Proof.
  intros Hne Hc.
  assert (∀ metric, metric ∈ model_metrics →
            constraint_for (c :: constraints) 0 metric = Ok None) as Hnone.
  { intros metric Hin. unfold constraint_for. cbn.
    destruct c as [d|]; [|done]. by rewrite (Hc metric d). }
  unfold satisfies_constraints, constraint_failure_percentage.
  destruct constraints as [|c0 constraints]; [done|].
  cbn [check_models add_models]. split.
  - assert (check_metrics (c :: c0 :: constraints) 0 model_metrics = Ok true)
      as ->.
    { clear Hc. induction model_metrics as [|m mm IH]; [done|].
      cbn [check_metrics]. unfold check_metric.
      rewrite Hnone by (by left). cbn. apply IH.
      intros metric Hin. apply Hnone. by right. }
    cbn. apply check_models_shift.
  - assert (∀ fp, add_metrics (c :: c0 :: constraints) 0 model_metrics fp
                  = Ok fp) as ->.
    { clear Hc. induction model_metrics as [|m mm IH]; intros fp; [done|].
      cbn [add_metrics]. unfold add_metric.
      rewrite Hnone by (by left). cbn. apply IH.
      intros metric Hin. apply Hnone. by right. }
    cbn. by rewrite add_models_shift.
Qed.

Lemma unconstrained_model_ignored_witness :
  Samples.latency_max 100 ≠ [] ∧
  satisfies_constraints (None :: Samples.latency_max 100)
    ([Latency.PerfLatencyAvg 900 0] :: Samples.latency_measured 150)
  = satisfies_constraints (Samples.latency_max 100)
      (Samples.latency_measured 150) ∧
  constraint_failure_percentage (None :: Samples.latency_max 100)
    ([Latency.PerfLatencyAvg 900 0] :: Samples.latency_measured 150)
  = constraint_failure_percentage (Samples.latency_max 100)
      (Samples.latency_measured 150).
Proof.
  assert (Samples.latency_max 100 ≠ []) as Hne by discriminate.
  split; [exact Hne|].
  apply (unconstrained_model_ignored None (Samples.latency_max 100)
           [Latency.PerfLatencyAvg 900 0] (Samples.latency_measured 150) Hne).
  intros metric d _ H. discriminate H.
Defined.

End ConstraintRunsFacts.

(** ** [get_constraints_for_all_models] *)

Module AllModelsFacts.

Import AllModels.

Section all_models.

Context {C : Type}.

Implicit Types (acc : gmap string C) (models : list (ConfigModelAnalysisSpec C)).

Lemma add_model_constraints_app acc models models' :
  add_model_constraints acc (models ++ models')
  = add_model_constraints (add_model_constraints acc models) models'.
Proof. apply foldl_app. Qed.

Lemma add_model_constraints_cons acc m models :
  add_model_constraints acc (m :: models)
  = add_model_constraints (<[model_name m := constraints m]> acc) models.
Proof. done. Qed.

Lemma add_model_constraints_other acc models (name : string) :
  (∀ m, m ∈ models → model_name m ≠ name) →
  add_model_constraints acc models !! name = acc !! name.
Proof.
  revert acc. induction models as [|m models IH]; intros acc H; [done|].
  rewrite add_model_constraints_cons, IH.
  - apply lookup_insert_ne. apply H. by left.
  - intros m' Hm'. apply H. by right.
Qed.

Lemma add_model_constraints_is_Some acc models (name : string) :
  is_Some (add_model_constraints acc models !! name) ↔
  is_Some (acc !! name) ∨ ∃ m, m ∈ models ∧ model_name m = name.
Proof.
  revert acc. induction models as [|m models IH]; intros acc.
  - cbn. split; [by left|]. intros [?|(m & Hm & _)]; [done|].
    by apply elem_of_nil in Hm.
  - rewrite add_model_constraints_cons, IH, lookup_insert_is_Some'. split.
    + intros [[E|?]|(m' & Hm' & Hn)].
      * right. exists m. split; [by left|done].
      * by left.
      * right. exists m'. split; [by right|done].
    + intros [?|(m' & Hm' & Hn)].
      * left; by right.
      * apply elem_of_cons in Hm' as [E|Hm'].
        -- left; left. by rewrite <- E.
        -- right. by exists m'.
Qed.

End all_models.

(** X18: the keys of the result are exactly the model names, plus
    ["default"] when the configuration has global constraints. *)
Theorem all_models_keys {C} (config : ConfigCommandProfile C)
    (name : string) :
  is_Some (get_constraints_for_all_models config !! name) ↔
  (∃ m, m ∈ analysis_models config ∧ model_name m = name) ∨
  (name = "default" ∧ is_Some (get_all_config_constraints config)).
Proof.
  unfold get_constraints_for_all_models.
  destruct (get_all_config_constraints config) as [c|].
  - rewrite lookup_insert_is_Some', add_model_constraints_is_Some.
    rewrite lookup_empty. split.
    + intros [E|[[? [=]]|?]]; [right; by split|by left].
    + intros [?|[E _]]; [right; by right|by left].
  - rewrite add_model_constraints_is_Some, lookup_empty. split.
    + intros [[? [=]]|?]. by left.
    + intros [?|[_ [? [=]]]]. by right.
Qed.

(** X19: a model's entry holds that model's constraints when no later model
    has the same name (of two models with one name the later wins), unless
    the model is called ["default"] and the configuration has global
    constraints: the global constraints always own the key ["default"]. *)
Theorem all_models_lookup {C} (config : ConfigCommandProfile C)
    (before after : list (ConfigModelAnalysisSpec C))
    (model : ConfigModelAnalysisSpec C) :
  analysis_models config = before ++ model :: after →
  (∀ m, m ∈ after → model_name m ≠ model_name model) →
  (∀ c, get_all_config_constraints config = Some c →
        get_constraints_for_all_models config !! "default" = Some c) ∧
  (model_name model ≠ "default" ∨ get_all_config_constraints config = None →
   get_constraints_for_all_models config !! model_name model
   = Some (constraints model)).
Proof.
  intros Hm Hlast. unfold get_constraints_for_all_models. split.
  - intros c ->. apply lookup_insert_eq.
  - intros Hd.
    assert (add_model_constraints ∅ (analysis_models config)
              !! model_name model = Some (constraints model)) as Hl.
    { rewrite Hm, add_model_constraints_app, add_model_constraints_cons.
      rewrite add_model_constraints_other by done.
      apply lookup_insert_eq. }
    destruct (get_all_config_constraints config) as [c|]; [|done].
    destruct Hd as [Hd|?]; [|done].
    by rewrite lookup_insert_ne.
Qed.

Lemma all_models_lookup_witness :
  analysis_models Samples.two_models
  = [mkConfigModelAnalysisSpec "resnet" 1]
      ++ mkConfigModelAnalysisSpec "bert" 2 :: [] ∧
  (∀ c, get_all_config_constraints Samples.two_models = Some c →
        get_constraints_for_all_models Samples.two_models !! "default"
        = Some c) ∧
  (("bert" : string) ≠ "default" ∨
   get_all_config_constraints Samples.two_models = None →
   get_constraints_for_all_models Samples.two_models !! "bert" = Some 2).
Proof.
  split; [reflexivity|].
  apply (all_models_lookup Samples.two_models
           [mkConfigModelAnalysisSpec "resnet" 1] []
           (mkConfigModelAnalysisSpec "bert" 2)); [reflexivity|].
  intros m Hm. by apply elem_of_nil in Hm.
Defined.

End AllModelsFacts.

(** ** The quick run-config generator against the other tests *)

Module QuickSearchTests.

Import QuickSearch QuickSearch.Fixture.

Local Open Scope Z_scope.

(** [test_get_starting_coordinate] *)
Lemma test_get_starting_coordinate :
  _get_starting_coordinate starting_dims = [2; 1; 3].
Proof. reflexivity. Qed.

(** [test_get_next_run_config_max_batch_size]: the batch size 32 is capped
    at 16, the concurrency is recomputed as 16 × 8 × 2. *)
Lemma test_get_next_run_config_max_batch_size :
  _get_next_run_config
    (qrcg_clamped (mkGlobalBounds (Some 16) None None None None None))
  = Ok (expected_clamped 16 8 256).
Proof. vm_compute. reflexivity. Qed.

(** [test_get_next_run_config_max_instance_count]: the instance count 8 is
    capped at 4. *)
Lemma test_get_next_run_config_max_instance_count :
  _get_next_run_config
    (qrcg_clamped (mkGlobalBounds None None (Some 4) None None None))
  = Ok (expected_clamped 32 4 256).
Proof. vm_compute. reflexivity. Qed.

(** [test_get_next_run_config_min_batch_size]: the batch size 32 is raised
    to 64. *)
Lemma test_get_next_run_config_min_batch_size :
  _get_next_run_config
    (qrcg_clamped (mkGlobalBounds None (Some 64) None None None None))
  = Ok (expected_clamped 64 8 1024).
Proof. vm_compute. reflexivity. Qed.

(** [test_get_next_run_config_min_instance_count]: the instance count 8 is
    raised to 16. *)
Lemma test_get_next_run_config_min_instance_count :
  _get_next_run_config
    (qrcg_clamped (mkGlobalBounds None None None (Some 16) None None))
  = Ok (expected_clamped 32 16 1024).
Proof. vm_compute. reflexivity. Qed.

(** [test_get_next_run_config_multi_model] *)
Lemma test_get_next_run_config_multi_model :
  _get_next_run_config qrcg_multi_model = Ok expected_multi_model.
Proof. vm_compute. reflexivity. Qed.

End QuickSearchTests.
